(** * ETH/USDT MACD strategy: the signal engine of [eth_macd_strategy.py]

    A shallow embedding of the pure part of the strategy (ROI/price
    conversion, normaliser, exponential average and RSI/ATR/Bollinger/
    volume indicators, snapshot, signal scorer, position sizer,
    trailing-stop engine and plan builder), of the order submission
    against an abstract exchange client, and the properties its
    specification states about them.

    Numbers.  A Python [float] that the code only ever combines with
    [+ - * /] and comparisons is an exact rational ([Q]); rounding and
    infinities are outside that reading, which carries the algebraic and
    order properties.  The price conversion, the trailing stop, the
    position sizer and the plan builder are read a second time over
    IEEE 754 doubles (module [Binary64]), operation by operation, for
    the properties that depend on rounding, on an infinity or on a NaN:
    the floor the sizer takes, the exceptions it raises, and whether an
    ordering of prices is strict.  A pandas cell, and any scalar read
    out of a pandas series, is a [float] in the sense below: a rational
    or NaN.  A Python [int] is a [Z].  Exceptions are values of [exn]
    carried by the [result] monad. *)

From Stdlib Require Import PrimFloat FloatOps SpecFloat.
From Stdlib Require Import QArith Qround Qminmax Qabs ZArith String List Lia Lqa Bool.
Import ListNotations.

Local Open Scope Q_scope.

(* ================================================================== *)
(** ** Exceptions *)

Inductive exn : Type :=
| ValueError (msg : string)
| ZeroDivisionError
| OverflowError
| IndexError.

Inductive result (A : Type) : Type :=
| Ok (a : A)
| Raise (e : exn).

Arguments Ok {A} a.
Arguments Raise {A} e.

Definition bind {A B : Type} (m : result A) (k : A -> result B) : result B :=
  match m with
  | Ok a => k a
  | Raise e => Raise e
  end.

Notation "x <- m ;; k" := (bind m (fun x => k))
  (at level 61, m at next level, right associativity).

(* ================================================================== *)
(** ** Numbers *)

Definition Qltb (a b : Q) : bool :=
  match a ?= b with Lt => true | _ => false end.

Definition Qleb (a b : Q) : bool :=
  match a ?= b with Gt => false | _ => true end.

Definition Qeqb (a b : Q) : bool :=
  match a ?= b with Eq => true | _ => false end.

(** Python's [a / b] on floats: a zero divisor raises. *)
Definition py_div (a b : Q) : result Q :=
  if Qeqb b 0 then Raise ZeroDivisionError else Ok (a / b).

(** The orderings Python's builtin [max] and [min] go through. *)
Class PyOrd (A : Type) : Type := { py_lt : A -> A -> bool }.

#[export] Instance PyOrd_Q : PyOrd Q := {| py_lt := Qltb |}.
#[export] Instance PyOrd_Z : PyOrd Z := {| py_lt := Z.ltb |}.

(** [max(a, b)] keeps [a] unless [b > a]; [min(a, b)] keeps [a] unless
    [b < a]. *)
Definition py_max {A : Type} `{PyOrd A} (a b : A) : A :=
  if py_lt a b then b else a.

Definition py_min {A : Type} `{PyOrd A} (a b : A) : A :=
  if py_lt b a then b else a.

(* ================================================================== *)
(** ** Constants and data classes *)

Definition LEVERAGE : Z := 100.
Definition CONTRACT_MULTIPLIER : Q := 1.

Record TrailingStopConfig : Type := mkTrailingStopConfig {
  start_roi : Q;
  step_roi : Q;
  stop_loss_roi : Q
}.

Definition TrailingStopConfig_default : TrailingStopConfig :=
  {| start_roi := 10; step_roi := 8; stop_loss_roi := 9 |}.


(* ================================================================== *)
(** ** Helper functions *)

Definition is_long (side : string) : bool := String.eqb side "long".

Definition pct_to_price (side : string) (entry_price roi_percent : Q)
    (leverage : Z) : result Q :=
  r <- py_div roi_percent (inject_Z leverage) ;;
  let price_delta_ratio := r / 100 in
  Ok (if is_long side
      then entry_price * (1 + price_delta_ratio)
      else entry_price * (1 - price_delta_ratio)).

Definition price_to_roi (side : string) (entry_price current_price : Q)
    (leverage : Z) : result Q :=
  if Qleb entry_price 0
  then Raise (ValueError "entry_price must be positive")
  else
    d <- py_div (current_price - entry_price) entry_price ;;
    let price_change := d * 100 in
    let raw_roi := price_change * inject_Z leverage in
    Ok (if is_long side then raw_roi else - raw_roi).

Definition compute_trailing_stop (side : string) (entry_price peak_roi : Q)
    (config : TrailingStopConfig) (current_stop_price : option Q) : result Q :=
  stop_price <- pct_to_price side entry_price (- stop_loss_roi config) LEVERAGE ;;
  stop_price <-
    (if Qleb (start_roi config) peak_roi
     then
       let target_roi := py_max 0 (peak_roi - step_roi config) in
       trailing_price <- pct_to_price side entry_price target_roi LEVERAGE ;;
       Ok (if is_long side
           then py_max stop_price trailing_price
           else py_min stop_price trailing_price)
     else Ok stop_price) ;;
  match current_stop_price with
  | Some current =>
      Ok (if is_long side
          then py_max stop_price current
          else py_min stop_price current)
  | None => Ok stop_price
  end.

(** The sizer over the rationals: the floor is taken of the exact
    quotient.  [Binary64.determine_position_size] is the sizer over
    doubles, where the quotient is rounded and may be infinite or NaN. *)
Definition determine_position_size (balance_usdt entry_price position_percent : Q)
    (leverage : Z) (multiplier : Q) : result Z :=
  if Qleb balance_usdt 0
  then Raise (ValueError "Account balance must be positive to size a position")
  else
    let margin_used := balance_usdt * (position_percent / 100) in
    let position_value := margin_used * inject_Z leverage in
    q <- py_div position_value (entry_price * multiplier) ;;
    let size := Qfloor q in
    Ok (py_max size 1%Z).

(* ================================================================== *)
(** ** Floats that may be NaN, and pandas series of them *)

Abbreviation float := (option Q) (only parsing).
Definition NaN : float := None.

Definition flift2 (f : Q -> Q -> Q) (a b : float) : float :=
  match a, b with
  | Some x, Some y => Some (f x y)
  | _, _ => NaN
  end.

Definition fadd : float -> float -> float := flift2 Qplus.
Definition fsub : float -> float -> float := flift2 Qminus.
Definition fmul : float -> float -> float := flift2 Qmult.
Definition fneg (a : float) : float := option_map Qopp a.
Definition fabs (a : float) : float := option_map Qabs a.

(** numpy division does not raise.  A zero divisor yields a non-finite
    cell (inf or nan), and the model has one such cell.  [ta_rsi] never
    meets a zero divisor ([ta_rsi_divisors_nonzero]), and
    [normalize_series] divides only after [isclose] told the bounds
    apart ([isclose_false_neq]). *)
Definition fdiv (a b : float) : float :=
  match a, b with
  | Some x, Some y => if Qeqb y 0 then NaN else Some (x / y)
  | _, _ => NaN
  end.

(** Every comparison with NaN is false. *)
Definition flt (a b : float) : bool :=
  match a, b with
  | Some x, Some y => Qltb x y
  | _, _ => false
  end.

Definition fle (a b : float) : bool :=
  match a, b with
  | Some x, Some y => Qleb x y
  | _, _ => false
  end.

#[export] Instance PyOrd_float : PyOrd float := {| py_lt := flt |}.

(** [math.isclose(a, b, rel_tol=..., abs_tol=...)] *)
Definition isclose_with (rel_tol abs_tol : Q) (a b : float) : bool :=
  match a, b with
  | Some x, Some y =>
      let diff := Qabs (y - x) in
      Qeqb x y
      || Qleb diff (Qabs (rel_tol * y))
      || Qleb diff (Qabs (rel_tol * x))
      || Qleb diff abs_tol
  | _, _ => false
  end.

(** The defaults: [rel_tol=1e-09], [abs_tol=0.0]. *)
Definition isclose : float -> float -> bool := isclose_with 1e-9 0.

Abbreviation series := (list float) (only parsing).

(** Binary operators align two series on their (range) index; a label
    missing on one side is NaN there. *)
Fixpoint align (f : float -> float -> float) (a b : series) {struct a} : series :=
  match a with
  | [] => map (f NaN) b
  | x :: a' =>
      match b with
      | [] => map (fun v => f v NaN) a
      | y :: b' => f x y :: align f a' b'
      end
  end.

Definition empty (s : series) : bool :=
  match s with [] => true | _ => false end.

(** [s.iloc[i]], negative [i] counting from the end. *)
Definition iloc (s : series) (i : Z) : result float :=
  let n := Z.of_nat (length s) in
  let idx := if (i <? 0)%Z then (n + i)%Z else i in
  if (0 <=? idx)%Z && (idx <? n)%Z
  then Ok (nth (Z.to_nat idx) s NaN)
  else Raise IndexError.

(** [s.tail(n)]: nothing for [n = 0], the last [n] rows for [n > 0], all
    but the first [-n] rows for [n < 0]. *)
Definition tail (s : series) (n : Z) : series :=
  if (n =? 0)%Z then []
  else if (0 <? n)%Z then skipn (length s - Z.to_nat n) s
  else skipn (Z.to_nat (- n)) s.

(** Reductions skip NaN; with no valid cell the result is NaN. *)
Definition skipna_step (f : Q -> Q -> Q) (acc x : float) : float :=
  match acc, x with
  | Some a, Some v => Some (f a v)
  | None, Some v => Some v
  | _, None => acc
  end.

Definition skipna_reduce (f : Q -> Q -> Q) (s : series) : float :=
  fold_left (skipna_step f) s NaN.

Definition smin (s : series) : float := skipna_reduce Qmin s.
Definition smax (s : series) : float := skipna_reduce Qmax s.

Definition sneg (s : series) : series := map fneg s.
Definition sabs (s : series) : series := map fabs s.

(** [s.diff()] *)
Definition diff (s : series) : series :=
  match s with
  | [] => []
  | _ :: t => NaN :: map (fun p => fsub (fst p) (snd p)) (combine t s)
  end.

(** [s.shift(1)] *)
Definition shift1 (s : series) : series :=
  match s with
  | [] => []
  | _ => NaN :: removelast s
  end.

Definition clip_lower (lo : Q) (s : series) : series :=
  map (option_map (fun v => if Qltb v lo then lo else v)) s.

Definition clip_upper (hi : Q) (s : series) : series :=
  map (option_map (fun v => if Qltb hi v then hi else v)) s.

(** [s.replace(0, np.nan)] *)
Definition replace_zero_nan (s : series) : series :=
  map (fun c => match c with
                | Some v => if Qeqb v 0 then NaN else Some v
                | None => NaN
                end) s.

Definition fillna (v : Q) (s : series) : series :=
  map (fun c => match c with Some _ => c | None => Some v end) s.

(** [s.bfill()]: a NaN takes the next valid value after it, if any. *)
Fixpoint bfill (s : series) : series :=
  match s with
  | [] => []
  | c :: t =>
      let t' := bfill t in
      match c with
      | Some _ => c :: t'
      | None => hd NaN t' :: t'
      end
  end.

(** *** Rolling windows *)

(** The cells a fixed window of size [window] sees at row [i]. *)
Definition rolling_window (window i : nat) (s : series) : series :=
  skipn (S i - window) (firstn (S i) s).

Definition valid_cells (w : series) : list Q :=
  flat_map (fun c => match c with Some v => [v] | None => [] end) w.

Definition Qsum (l : list Q) : Q := fold_left Qplus l 0.

(** [rolling(...).mean()] on one window: the mean of the valid cells,
    when there are at least [minp] of them and at least one. *)
Definition window_mean (minp : nat) (w : series) : float :=
  let vs := valid_cells w in
  let nobs := length vs in
  if (minp <=? nobs)%nat && (0 <? nobs)%nat
  then Some (Qsum vs / inject_Z (Z.of_nat nobs))
  else NaN.

(** [rolling(window, min_periods)]: the checks pandas makes before any
    aggregation, in its order; [min_periods=None] means the window size.
    The second message leaves out the two numbers. *)
Definition rolling_validate (window : Z) (min_periods : option Z) : result (nat * nat) :=
  match min_periods with
  | Some m =>
      if (m <? 0)%Z then Raise (ValueError "min_periods must be >= 0")
      else if (window <? m)%Z then Raise (ValueError "min_periods must be <= window")
      else if (window <? 0)%Z then Raise (ValueError "window must be an integer 0 or greater")
      else Ok (Z.to_nat window, Z.to_nat m)
  | None =>
      if (window <? 0)%Z then Raise (ValueError "window must be an integer 0 or greater")
      else Ok (Z.to_nat window, Z.to_nat window)
  end.

Definition rolling_apply (agg : nat -> series -> float) (window : Z)
    (min_periods : option Z) (s : series) : result series :=
  p <- rolling_validate window min_periods ;;
  Ok (map (fun i => agg (snd p) (rolling_window (fst p) i s)) (seq 0 (length s))).

Definition rolling_mean : Z -> option Z -> series -> result series :=
  rolling_apply window_mean.

(** *** Indicators *)

(** The rolling average loss of [ta_rsi], and the average gain. *)
Definition rsi_delta (s : series) : series := diff s.
Definition rsi_gain (s : series) : series := clip_lower 0 (rsi_delta s).
Definition rsi_loss (s : series) : series := sneg (clip_upper 0 (rsi_delta s)).

Definition rsi_avg_gain (s : series) (length : Z) : result series :=
  rolling_mean length (Some length) (rsi_gain s).

Definition rsi_avg_loss (s : series) (length : Z) : result series :=
  rolling_mean length (Some length) (rsi_loss s).

Definition ta_rsi (s : series) (length : Z) : result series :=
  avg_gain <- rsi_avg_gain s length ;;
  avg_loss <- rsi_avg_loss s length ;;
  let rs := align fdiv avg_gain (replace_zero_nan avg_loss) in
  let rsi := map (fun c => fsub (Some 100) (fdiv (Some 100) (fadd (Some 1) c))) rs in
  Ok (fillna 50 rsi).

(** Row-wise maximum of the concatenated columns, skipping NaN. *)
Definition row_max (a b : series) : series := align (skipna_step Qmax) a b.

Definition ta_atr (highs lows closes : series) (length : Z) : result series :=
  let prev_close := shift1 closes in
  let tr :=
    row_max (row_max (align fsub highs lows)
                     (sabs (align fsub highs prev_close)))
            (sabs (align fsub lows prev_close)) in
  r <- rolling_mean length (Some length) tr ;;
  Ok (bfill r).

Section Bollinger.

(** The square root of the float library, which the rationals lack. *)
Variable fsqrt : Q -> Q.

(** [rolling(...).std(ddof=0)] on one window. *)
Definition window_std0 (minp : nat) (w : series) : float :=
  let vs := valid_cells w in
  let nobs := length vs in
  if (minp <=? nobs)%nat && (0 <? nobs)%nat
  then
    let n := inject_Z (Z.of_nat nobs) in
    let mean := Qsum vs / n in
    let ssqdm := Qsum (map (fun v => (v - mean) * (v - mean)) vs) in
    Some (fsqrt (ssqdm / n))
  else NaN.

Definition rolling_std0 : Z -> option Z -> series -> result series :=
  rolling_apply window_std0.

(** Lines 147-151 of [compute_indicators]: the Bollinger band width. *)
Definition bb_width_series_of (closes : series) : result series :=
  bb_basis <- rolling_mean 20 None closes ;;
  sd <- rolling_std0 20 None closes ;;
  let bb_dev := map (fmul (Some 2)) sd in
  let bb_upper := align fadd bb_basis bb_dev in
  let bb_lower := align fsub bb_basis bb_dev in
  Ok (map (fun c => fmul c (Some 100))
          (align fdiv (align fsub bb_upper bb_lower) closes)).

End Bollinger.

(** Line 153 of [compute_indicators]: the rolling volume average. *)
Definition vol_ma_series_of (volumes : series) (volume_ma_length : Z) : result series :=
  rolling_mean volume_ma_length None volumes.

(* ================================================================== *)
(** ** Strategy inputs and the indicator snapshot *)

Record StrategyInputs : Type := mkStrategyInputs {
  fast_length : Z;
  slow_length : Z;
  signal_length : Z;
  macd_delta_min : Q;
  bb_min_expansion : Q;
  bars_to_kill : Z;
  atr_trail_mult : Q;
  min_profit_roi : Q;
  normalization_lookback : Z;
  weight_macd : Q;
  weight_bb : Q;
  weight_rsi : Q;
  strength_threshold : string;
  use_trend_filter : bool;
  use_volume_filter : bool;
  volume_ma_length : Z
}.

Definition StrategyInputs_default : StrategyInputs :=
  {| fast_length := 9; slow_length := 23; signal_length := 5;
     macd_delta_min := 0.01; bb_min_expansion := 0.5; bars_to_kill := 30;
     atr_trail_mult := 1.5; min_profit_roi := 1;
     normalization_lookback := 200;
     weight_macd := 0.45; weight_bb := 0.35; weight_rsi := 0.20;
     strength_threshold := "Medium";
     use_trend_filter := true; use_volume_filter := false;
     volume_ma_length := 50 |}.


(** The dictionary [compute_indicators] returns always carries the same
    keys; it is a record here, one field per key. *)
Record Indicators : Type := mkIndicators {
  ind_close : float;
  ind_fast_ema : float;
  ind_slow_ema : float;
  ind_macd_delta : float;
  ind_macd_slope : float;
  ind_bb_width : float;
  ind_rsi : float;
  ind_atr : float;
  ind_atr_percent : float;
  ind_bb_upper : float;
  ind_bb_lower : float;
  ind_vol_ma : float;
  ind_volume : float;
  ind_macd_line : float;
  ind_macd_signal : float;
  ind_delta_series : series;
  ind_bb_width_series : series;
  ind_rsi_series : series
}.

(** Values of the score dictionary. *)
Inductive pyval : Type :=
| PyStr (s : string)
| PyFloat (x : float).

Definition dict : Type := list (string * pyval).

(* ================================================================== *)
(** ** Normaliser and signal scorer *)

Definition normalize_series (s : series) (lookback : Z) : result float :=
  if empty s then Ok (Some 0)
  else
    let window := tail s lookback in
    let low := smin window in
    let high := smax window in
    if isclose low high then Ok (Some 0)
    else
      cur <- iloc s (-1) ;;
      Ok (py_max (Some 0)
            (py_min (Some 100)
               (fmul (fdiv (fsub cur low) (fsub high low)) (Some 100)))).

Definition clamp (value low high : float) : float :=
  py_max low (py_min high value).

Definition thresholds_get (name : string) : Q :=
  if String.eqb name "Weak" then 60
  else if String.eqb name "Medium" then 75
  else if String.eqb name "Strong" then 83
  else 75.

Definition determine_signal (indicators : Indicators) (inputs : StrategyInputs)
    : result (option string * dict) :=
  let macd_delta := ind_macd_delta indicators in
  let delta_series := ind_delta_series indicators in
  let bb_width_series := ind_bb_width_series indicators in
  let rsi_series := ind_rsi_series indicators in
  if (length delta_series <? 2)%nat
  then Ok (None, [("reason"%string, PyStr "insufficient data for MACD crossover")])
  else
    prev <- iloc delta_series (-2) ;;
    let crossed_above := fle prev (Some 0) && flt (Some 0) macd_delta in
    let crossed_below := fle (Some 0) prev && flt macd_delta (Some 0) in
    let base_long :=
      crossed_above && flt (Some (macd_delta_min inputs)) macd_delta
      && flt (Some (bb_min_expansion inputs)) (ind_bb_width indicators) in
    let base_short :=
      crossed_below && flt macd_delta (Some (- macd_delta_min inputs))
      && flt (Some (bb_min_expansion inputs)) (ind_bb_width indicators) in
    let trend_ok_long :=
      negb (use_trend_filter inputs)
      || flt (ind_slow_ema indicators) (ind_fast_ema indicators) in
    let trend_ok_short :=
      negb (use_trend_filter inputs)
      || flt (ind_fast_ema indicators) (ind_slow_ema indicators) in
    let volume_ok :=
      negb (use_volume_filter inputs)
      || flt (ind_vol_ma indicators) (ind_volume indicators) in
    let lookback := normalization_lookback inputs in
    macd_mag <- normalize_series (sabs delta_series) lookback ;;
    macd_imp_pos <- normalize_series (clip_lower 0 (diff delta_series)) lookback ;;
    macd_imp_neg <- normalize_series (sneg (clip_upper 0 (diff delta_series))) lookback ;;
    let macd_comp_long := fadd (fmul (Some 0.7) macd_mag) (fmul (Some 0.3) macd_imp_pos) in
    let macd_comp_short := fadd (fmul (Some 0.7) macd_mag) (fmul (Some 0.3) macd_imp_neg) in
    bb_comp <- normalize_series bb_width_series lookback ;;
    let rsi := ind_rsi indicators in
    let rsi_comp_long :=
      clamp (fdiv (fmul (Some 100) (fsub (Some 70) rsi)) (Some 40)) (Some 0) (Some 100) in
    let rsi_comp_short :=
      clamp (fdiv (fmul (Some 100) (fsub rsi (Some 30))) (Some 40)) (Some 0) (Some 100) in
    let score w_macd_comp w_rsi_comp :=
      fadd (fadd (fmul (Some (weight_macd inputs)) w_macd_comp)
                 (fmul (Some (weight_bb inputs)) bb_comp))
           (fmul (Some (weight_rsi inputs)) w_rsi_comp) in
    let score_long := score macd_comp_long rsi_comp_long in
    let score_short := score macd_comp_short rsi_comp_short in
    let required := Some (thresholds_get (strength_threshold inputs)) in
    let strength_ok_long := fle required score_long in
    let strength_ok_short := fle required score_short in
    let side :=
      if base_long && trend_ok_long && volume_ok && strength_ok_long
      then Some "long"%string
      else if base_short && trend_ok_short && volume_ok && strength_ok_short
      then Some "short"%string
      else None in
    let score_state :=
      [ ("score_long"%string, PyFloat score_long);
        ("score_short"%string, PyFloat score_short);
        ("required"%string, PyFloat required);
        ("macd_component_long"%string, PyFloat macd_comp_long);
        ("macd_component_short"%string, PyFloat macd_comp_short);
        ("bb_component"%string, PyFloat bb_comp);
        ("rsi_component_long"%string, PyFloat rsi_comp_long);
        ("rsi_component_short"%string, PyFloat rsi_comp_short) ] in
    Ok (side, score_state).

(* ================================================================== *)
(** ** Plan builder *)

Record TradePlan : Type := mkTradePlan {
  side : string;
  entry_price : Q;
  stop_loss_price : Q;
  trailing_stop_price : Q;
  take_profit_price : Q;
  size : Z;
  peak_roi : Q;
  timestamp_ms : Z
}.

(** [now_ms] is the reading [int(time.time() * 1000)] of the clock. *)
Definition build_trade_plan (side : string) (entry_price : Q)
    (indicators : Indicators) (inputs : StrategyInputs)
    (trailing : TrailingStopConfig) (balance_usdt position_percent : Q)
    (now_ms : Z) : result TradePlan :=
  let peak_roi := 0 in
  stop_loss_price <- pct_to_price side entry_price (- stop_loss_roi trailing) LEVERAGE ;;
  trailing_stop_price <-
    compute_trailing_stop side entry_price peak_roi trailing (Some stop_loss_price) ;;
  take_profit_price <- pct_to_price side entry_price (min_profit_roi inputs) LEVERAGE ;;
  size <- determine_position_size balance_usdt entry_price position_percent
            LEVERAGE CONTRACT_MULTIPLIER ;;
  Ok {| side := side;
        entry_price := entry_price;
        stop_loss_price := stop_loss_price;
        trailing_stop_price := trailing_stop_price;
        take_profit_price := take_profit_price;
        size := size;
        peak_roi := peak_roi;
        timestamp_ms := now_ms |}.

(* ================================================================== *)
(** ** Derived notions used in the statements *)


(** Sample data for the worked examples. *)
Definition Indicators_one_bar : Indicators :=
  {| ind_close := Some 2000; ind_fast_ema := Some 2000; ind_slow_ema := Some 2000;
     ind_macd_delta := Some 0; ind_macd_slope := NaN; ind_bb_width := NaN;
     ind_rsi := Some 50; ind_atr := NaN; ind_atr_percent := NaN;
     ind_bb_upper := NaN; ind_bb_lower := NaN; ind_vol_ma := NaN;
     ind_volume := Some 1200; ind_macd_line := Some 0; ind_macd_signal := Some 0;
     ind_delta_series := [Some 0];
     ind_bb_width_series := [NaN];
     ind_rsi_series := [Some 50] |}.

Definition Indicators_crossing_up : Indicators :=
  {| ind_close := Some 2000; ind_fast_ema := Some 2001; ind_slow_ema := Some 2000;
     ind_macd_delta := Some 0.02; ind_macd_slope := Some 0.03; ind_bb_width := Some 2;
     ind_rsi := Some 50; ind_atr := Some 40; ind_atr_percent := Some 2;
     ind_bb_upper := Some 2020; ind_bb_lower := Some 1980; ind_vol_ma := Some 1200;
     ind_volume := Some 1200; ind_macd_line := Some 0.05; ind_macd_signal := Some 0.03;
     ind_delta_series := [Some (-0.01); Some 0.02];
     ind_bb_width_series := [Some 1; Some 2];
     ind_rsi_series := [Some 50; Some 50] |}.

Definition StrategyInputs_relaxed : StrategyInputs :=
  {| fast_length := 9; slow_length := 23; signal_length := 5;
     macd_delta_min := 0.0001; bb_min_expansion := 0.05; bars_to_kill := 30;
     atr_trail_mult := 1.5; min_profit_roi := 1;
     normalization_lookback := 200;
     weight_macd := 0.15; weight_bb := 0.8; weight_rsi := 0.05;
     strength_threshold := "Weak";
     use_trend_filter := true; use_volume_filter := false;
     volume_ma_length := 50 |}.


(** A window of valid cells [a :: t] that rises strictly from cell to
    cell. *)
Fixpoint strictly_increasing_from (a : Q) (t : list Q) : Prop :=
  match t with
  | [] => True
  | b :: t' => a < b /\ strictly_increasing_from b t'
  end.

(** An aggregate that needs [minp] valid observations. *)
Definition needs_min_periods (agg : nat -> series -> float) : Prop :=
  forall (minp : nat) (w : series),
    (length (valid_cells w) < minp)%nat -> agg minp w = NaN.

(** Cells that are NaN or, respectively, non-negative, positive,
    non-zero. *)
Definition cell_nonneg (c : float) : Prop :=
  match c with Some v => 0 <= v | None => True end.

Definition cell_pos (c : float) : Prop :=
  match c with Some v => 0 < v | None => True end.

Definition cell_nonzero (c : float) : Prop :=
  match c with Some v => ~ v == 0 | None => True end.

(** A cell that holds a number between [lo] and [hi]. *)
Definition cell_between (lo hi : Q) (c : float) : Prop :=
  exists v, c = Some v /\ lo <= v <= hi.

Definition cell_valid (c : float) : Prop := exists v, c = Some v.

(** [d.get(k)] on the score dictionary. *)
Fixpoint dict_get (d : dict) (k : string) : option pyval :=
  match d with
  | [] => None
  | (k', v) :: d' => if String.eqb k k' then Some v else dict_get d' k
  end.

(** The inputs with another [strength_threshold]. *)
Definition with_strength_threshold (i : StrategyInputs) (t : string) : StrategyInputs :=
  {| fast_length := fast_length i; slow_length := slow_length i;
     signal_length := signal_length i; macd_delta_min := macd_delta_min i;
     bb_min_expansion := bb_min_expansion i; bars_to_kill := bars_to_kill i;
     atr_trail_mult := atr_trail_mult i; min_profit_roi := min_profit_roi i;
     normalization_lookback := normalization_lookback i;
     weight_macd := weight_macd i; weight_bb := weight_bb i;
     weight_rsi := weight_rsi i; strength_threshold := t;
     use_trend_filter := use_trend_filter i;
     use_volume_filter := use_volume_filter i;
     volume_ma_length := volume_ma_length i |}.

Definition Indicators_crossing_down : Indicators :=
  {| ind_close := Some 2000; ind_fast_ema := Some 1999; ind_slow_ema := Some 2000;
     ind_macd_delta := Some (-0.02); ind_macd_slope := Some (-0.03);
     ind_bb_width := Some 2;
     ind_rsi := Some 50; ind_atr := Some 40; ind_atr_percent := Some 2;
     ind_bb_upper := Some 2020; ind_bb_lower := Some 1980; ind_vol_ma := Some 1200;
     ind_volume := Some 1200; ind_macd_line := Some (-0.05);
     ind_macd_signal := Some (-0.03);
     ind_delta_series := [Some 0.01; Some (-0.02)];
     ind_bb_width_series := [Some 1; Some 2];
     ind_rsi_series := [Some 50; Some 50] |}.

(* ================================================================== *)
(** ** The rest of [compute_indicators] *)

(** *** [ewm(span=span, adjust=False).mean()]

    pandas' loop over the rows: [weighted] is the running average,
    [old_wt] the weight it carries, [nobs] the number of valid rows seen.
    A NaN row keeps the average and lets its weight decay; the first
    valid row seeds it.  A row is reported once one observation has been
    seen. *)
Record ewm_state : Type := mk_ewm_state {
  ewm_weighted : float;
  ewm_old_wt : Q;
  ewm_nobs : nat
}.

Definition is_observation (cur : float) : nat :=
  match cur with Some _ => 1 | None => 0 end.

Definition ewm_step (alpha : Q) (st : ewm_state) (cur : float) : ewm_state :=
  let old_wt_factor := 1 - alpha in
  let new_wt := alpha in
  let nobs := (ewm_nobs st + is_observation cur)%nat in
  match ewm_weighted st with
  | Some weighted =>
      let old_wt := ewm_old_wt st * old_wt_factor in
      match cur with
      | Some c =>
          {| ewm_weighted :=
               Some (if Qeqb weighted c
                     then weighted
                     else (old_wt * weighted + new_wt * c) / (old_wt + new_wt));
             ewm_old_wt := 1;
             ewm_nobs := nobs |}
      | None =>
          {| ewm_weighted := Some weighted; ewm_old_wt := old_wt; ewm_nobs := nobs |}
      end
  | None =>
      {| ewm_weighted := cur; ewm_old_wt := ewm_old_wt st; ewm_nobs := nobs |}
  end.

Definition ewm_output (st : ewm_state) : float :=
  if (1 <=? ewm_nobs st)%nat then ewm_weighted st else NaN.

Fixpoint ewm_run (alpha : Q) (st : ewm_state) (vals : series) : series :=
  match vals with
  | [] => []
  | cur :: rest =>
      let st' := ewm_step alpha st cur in
      ewm_output st' :: ewm_run alpha st' rest
  end.

Definition ewm_alpha (span : Z) : Q :=
  let com := (inject_Z span - 1) / 2 in
  1 / (1 + com).

Definition ewm_mean (s : series) (span : Z) : result series :=
  if (span <? 1)%Z
  then Raise (ValueError "span must satisfy: span >= 1")
  else
    Ok match s with
       | [] => []
       | first :: rest =>
           let st := {| ewm_weighted := first; ewm_old_wt := 1;
                        ewm_nobs := is_observation first |} in
           ewm_output st :: ewm_run (ewm_alpha span) st rest
       end.

(** *** The frame of bars and the snapshot built from it *)

Record Bar : Type := mkBar {
  bar_timestamp : float;
  bar_open : float;
  bar_close : float;
  bar_high : float;
  bar_low : float;
  bar_volume : float
}.

Abbreviation DataFrame := (list Bar) (only parsing).

(** Truth value of a float: zero is false, everything else (NaN too) is
    true. *)
Definition truthy (x : float) : bool :=
  match x with Some c => negb (Qeqb c 0) | None => true end.

Section Snapshot.

Variable fsqrt : Q -> Q.

(** The Bollinger lines of [compute_indicators]: upper band, lower band
    and width. *)
Definition bollinger (closes : series) : result (series * series * series) :=
  bb_basis <- rolling_mean 20 None closes ;;
  sd <- rolling_std0 fsqrt 20 None closes ;;
  let bb_dev := map (fmul (Some 2)) sd in
  let bb_upper := align fadd bb_basis bb_dev in
  let bb_lower := align fsub bb_basis bb_dev in
  let bb_width :=
    map (fun c => fmul c (Some 100))
        (align fdiv (align fsub bb_upper bb_lower) closes) in
  Ok (bb_upper, bb_lower, bb_width).

Definition compute_indicators (df : DataFrame) (inputs : StrategyInputs)
    : result Indicators :=
  let closes := map bar_close df in
  let highs := map bar_high df in
  let lows := map bar_low df in
  let volumes := map bar_volume df in
  fast_ema <- ewm_mean closes (fast_length inputs) ;;
  slow_ema <- ewm_mean closes (slow_length inputs) ;;
  let macd_line := align fsub fast_ema slow_ema in
  signal <- ewm_mean macd_line (signal_length inputs) ;;
  let delta := align fsub macd_line signal in
  let macd_slope := diff delta in
  rsi <- ta_rsi closes 14 ;;
  atr <- ta_atr highs lows closes 14 ;;
  bands <- bollinger closes ;;
  let bb_upper := fst (fst bands) in
  let bb_lower := snd (fst bands) in
  let bb_width := snd bands in
  vol_ma <- rolling_mean (volume_ma_length inputs) None volumes ;;
  close_last <- iloc closes (-1) ;;
  fast_last <- iloc fast_ema (-1) ;;
  slow_last <- iloc slow_ema (-1) ;;
  delta_last <- iloc delta (-1) ;;
  slope_last <- iloc macd_slope (-1) ;;
  width_last <- iloc bb_width (-1) ;;
  rsi_last <- iloc rsi (-1) ;;
  atr_last <- iloc atr (-1) ;;
  close_test <- iloc closes (-1) ;;
  atr_percent <-
    (if truthy close_test
     then
       a <- iloc atr (-1) ;;
       c <- iloc closes (-1) ;;
       Ok (fmul (fdiv a c) (Some 100))
     else Ok (Some 0)) ;;
  upper_last <- iloc bb_upper (-1) ;;
  lower_last <- iloc bb_lower (-1) ;;
  vol_ma_last <- iloc vol_ma (-1) ;;
  volume_last <- iloc volumes (-1) ;;
  line_last <- iloc macd_line (-1) ;;
  signal_last <- iloc signal (-1) ;;
  Ok {| ind_close := close_last;
        ind_fast_ema := fast_last;
        ind_slow_ema := slow_last;
        ind_macd_delta := delta_last;
        ind_macd_slope := slope_last;
        ind_bb_width := width_last;
        ind_rsi := rsi_last;
        ind_atr := atr_last;
        ind_atr_percent := atr_percent;
        ind_bb_upper := upper_last;
        ind_bb_lower := lower_last;
        ind_vol_ma := vol_ma_last;
        ind_volume := volume_last;
        ind_macd_line := line_last;
        ind_macd_signal := signal_last;
        ind_delta_series := delta;
        ind_bb_width_series := bb_width;
        ind_rsi_series := rsi |}.

End Snapshot.

(** The textbook recurrence of the exponential average on numbers:
    seeded with the first value, then
    [y = (1 - alpha) * y_prev + alpha * x]. *)
Fixpoint ema_recurrence (alpha y_prev : Q) (xs : list Q) : list Q :=
  match xs with
  | [] => []
  | x :: rest =>
      let y := (1 - alpha) * y_prev + alpha * x in
      y :: ema_recurrence alpha y rest
  end.

(** A cell that is NaN or lies between [lo] and [hi]. *)
Definition cell_within (lo hi : Q) (c : float) : Prop :=
  match c with Some v => lo <= v <= hi | None => True end.

(* ================================================================== *)
(** ** Order submission

    [submit_orders] talks to the exchange through the [Trade] client.
    The model keeps the calls it makes, in order, and how it ends; log
    lines are left out.  The client is any function that, given the
    calls made so far and the next call, says which exception that call
    raises, if any. *)

Definition SYMBOL : string := "ETHUSDTM".

Inductive order_exn : Type :=
| KeyError (key : string)
| ClientError (code : Z).

Record MarketOrder : Type := mkMarketOrder {
  mo_symbol : string;
  mo_side : string;
  mo_leverage : string;
  mo_size : string
}.

Record StopOrder : Type := mkStopOrder {
  so_symbol : string;
  so_side : string;
  so_leverage : string;
  so_stop : string;
  so_stopPrice : Q;
  so_size : string;
  so_reduceOnly : bool
}.

Inductive client_call : Type :=
| create_market_order (o : MarketOrder)
| create_stop_order (o : StopOrder).

(** [side_map[side]] with [side_map = {"long": "buy", "short": "sell"}]. *)
Definition side_map_get (s : string) : option string :=
  if String.eqb s "long" then Some "buy"%string
  else if String.eqb s "short" then Some "sell"%string
  else None.

Section SubmitOrders.

(** Python's [str] on an integer and [round(x, 2)] on a float. *)
Variable str_int : Z -> string.
Variable round2 : Q -> Q.

Variable client : list client_call -> client_call -> option order_exn.

(** Make one call: it is recorded, and its exception, if any, ends the
    function. *)
Definition call_client (c : client_call) (made : list client_call)
    (k : list client_call -> list client_call * option order_exn)
    : list client_call * option order_exn :=
  match client made c with
  | Some e => (made ++ [c], Some e)
  | None => k (made ++ [c])
  end.

Definition submit_orders (plan : TradePlan) (execute : bool)
    : list client_call * option order_exn :=
  if negb execute then ([], None)
  else
    match side_map_get (side plan) with
    | None => ([], Some (KeyError (side plan)))
    | Some order_side =>
        call_client
          (create_market_order
             {| mo_symbol := SYMBOL; mo_side := order_side;
                mo_leverage := str_int LEVERAGE;
                mo_size := str_int (size plan) |}) []
          (fun made =>
             let stop_side :=
               if is_long (side plan) then "sell"%string else "buy"%string in
             call_client
               (create_stop_order
                  {| so_symbol := SYMBOL; so_side := stop_side;
                     so_leverage := str_int LEVERAGE;
                     so_stop := if is_long (side plan)
                                then "down"%string else "up"%string;
                     so_stopPrice := round2 (stop_loss_price plan);
                     so_size := str_int (size plan);
                     so_reduceOnly := true |}) made
               (fun made =>
                  call_client
                    (create_stop_order
                       {| so_symbol := SYMBOL; so_side := stop_side;
                          so_leverage := str_int LEVERAGE;
                          so_stop := if is_long (side plan)
                                     then "down"%string else "up"%string;
                          so_stopPrice := round2 (take_profit_price plan);
                          so_size := str_int (size plan);
                          so_reduceOnly := true |}) made
                    (fun made => (made, None))))
    end.

End SubmitOrders.

(** A client that accepts every call, and one that rejects every call. *)
Definition client_accepts (_ : list client_call) (_ : client_call) : option order_exn :=
  None.

Definition client_rejects (_ : list client_call) (_ : client_call) : option order_exn :=
  Some (ClientError 400).

Definition is_stop_order (c : client_call) : bool :=
  match c with create_stop_order _ => true | create_market_order _ => false end.

Definition TradePlan_sample (s : string) : TradePlan :=
  {| side := s; entry_price := 2000; stop_loss_price := 1998.2;
     trailing_stop_price := 1998.2; take_profit_price := 2000.2; size := 2;
     peak_roi := 0; timestamp_ms := 1700000000000 |}.

(* ================================================================== *)
(** ** The sizer and the plan builder over IEEE doubles *)

(** The same functions with a Python [float] read as what the
    interpreter computes with: an IEEE 754 binary64 value, every
    operation rounded to nearest, with signed zeros, infinities and NaN
    ([PrimFloat.float]).  An [int] operand of a float operation is
    converted first; comparisons with a NaN are false. *)
Module Binary64.

Abbreviation f64 := PrimFloat.float (only parsing).

#[export] Instance PyOrd_f64 : PyOrd f64 := {| py_lt := PrimFloat.ltb |}.

(** The number a double stands for; [None] for the infinities and NaN. *)
Definition exact (x : f64) : option Q :=
  match Prim2SF x with
  | S754_zero _ => Some 0
  | S754_finite s m e =>
      let v := if s then Z.neg m else Z.pos m in
      Some (match e with
            | Z0 => inject_Z v
            | Zpos p => inject_Z (v * 2 ^ Zpos p)
            | Zneg p => Qmake v (2 ^ p)
            end)
  | S754_infinity _ => None
  | S754_nan => None
  end.

Definition isnan (x : f64) : bool :=
  match Prim2SF x with
  | S754_nan => true
  | _ => false
  end.

(** The conversion applied to an [int] operand of a float operation:
    round to nearest, ties to even; an [int] beyond the range of a
    double raises. *)
Definition float_of_int (z : Z) : result f64 :=
  match binary_normalize prec emax z 0 false with
  | S754_infinity _ => Raise OverflowError
  | x => Ok (SF2Prim x)
  end.

(** [math.floor]: NaN and the infinities have no integer part. *)
Definition math_floor (x : f64) : result Z :=
  match exact x with
  | Some q => Ok (Qfloor q)
  | None =>
      if isnan x
      then Raise (ValueError "cannot convert float NaN to integer")
      else Raise OverflowError
  end.

(** [a / b] on doubles: a zero divisor (of either sign) raises. *)
Definition py_div (a b : f64) : result f64 :=
  if PrimFloat.eqb b 0 then Raise ZeroDivisionError else Ok (a / b)%float.

Definition CONTRACT_MULTIPLIER : f64 := 1%float.

Record TrailingStopConfig : Type := mkTrailingStopConfig {
  start_roi : f64;
  step_roi : f64;
  stop_loss_roi : f64
}.

Definition TrailingStopConfig_default : TrailingStopConfig :=
  {| start_roi := 10%float; step_roi := 8%float; stop_loss_roi := 9%float |}.

Definition pct_to_price (side : string) (entry_price roi_percent : f64)
    (leverage : Z) : result f64 :=
  lev <- float_of_int leverage ;;
  r <- py_div roi_percent lev ;;
  let price_delta_ratio := (r / 100)%float in
  Ok (if is_long side
      then (entry_price * (1 + price_delta_ratio))%float
      else (entry_price * (1 - price_delta_ratio))%float).

Definition compute_trailing_stop (side : string) (entry_price peak_roi : f64)
    (config : TrailingStopConfig) (current_stop_price : option f64) : result f64 :=
  stop_price <- pct_to_price side entry_price (- stop_loss_roi config)%float LEVERAGE ;;
  stop_price <-
    (if PrimFloat.leb (start_roi config) peak_roi
     then
       let target_roi := py_max 0%float (peak_roi - step_roi config)%float in
       trailing_price <- pct_to_price side entry_price target_roi LEVERAGE ;;
       Ok (if is_long side
           then py_max stop_price trailing_price
           else py_min stop_price trailing_price)
     else Ok stop_price) ;;
  match current_stop_price with
  | Some current =>
      Ok (if is_long side
          then py_max stop_price current
          else py_min stop_price current)
  | None => Ok stop_price
  end.

Definition determine_position_size (balance_usdt entry_price position_percent : f64)
    (leverage : Z) (multiplier : f64) : result Z :=
  if PrimFloat.leb balance_usdt 0
  then Raise (ValueError "Account balance must be positive to size a position")
  else
    let margin_used := (balance_usdt * (position_percent / 100))%float in
    lev <- float_of_int leverage ;;
    let position_value := (margin_used * lev)%float in
    q <- py_div position_value (entry_price * multiplier)%float ;;
    size <- math_floor q ;;
    Ok (py_max size 1%Z).

Record TradePlan : Type := mkTradePlan {
  side : string;
  entry_price : f64;
  stop_loss_price : f64;
  trailing_stop_price : f64;
  take_profit_price : f64;
  size : Z;
  peak_roi : f64;
  timestamp_ms : Z
}.

(** Of [StrategyInputs] the builder reads [min_profit_roi] only, the one
    field kept here; [indicators] it does not read. *)
Record StrategyInputs : Type := mkStrategyInputs {
  min_profit_roi : f64
}.

Definition StrategyInputs_default : StrategyInputs :=
  {| min_profit_roi := 1%float |}.

(** [now_ms] is the reading [int(time.time() * 1000)] of the clock. *)
Definition build_trade_plan (side : string) (entry_price : f64)
    (indicators : Indicators) (inputs : StrategyInputs)
    (trailing : TrailingStopConfig) (balance_usdt position_percent : f64)
    (now_ms : Z) : result TradePlan :=
  let peak_roi := 0%float in
  stop_loss_price <-
    pct_to_price side entry_price (- stop_loss_roi trailing)%float LEVERAGE ;;
  trailing_stop_price <-
    compute_trailing_stop side entry_price peak_roi trailing (Some stop_loss_price) ;;
  take_profit_price <-
    pct_to_price side entry_price (min_profit_roi inputs) LEVERAGE ;;
  size <- determine_position_size balance_usdt entry_price position_percent
            LEVERAGE CONTRACT_MULTIPLIER ;;
  Ok {| side := side;
        entry_price := entry_price;
        stop_loss_price := stop_loss_price;
        trailing_stop_price := trailing_stop_price;
        take_profit_price := take_profit_price;
        size := size;
        peak_roi := peak_roi;
        timestamp_ms := now_ms |}.

End Binary64.

(* ================================================================== *)
(** * Properties *)

Lemma bind_Ok {A B : Type} (a : A) (k : A -> result B) : bind (Ok a) k = k a.
Proof. reflexivity. Qed.

(** ** Comparisons and the builtin [max]/[min] *)

Lemma Qltb_lt (a b : Q) : Qltb a b = true <-> a < b.
Proof.
  unfold Qltb. rewrite Qlt_alt. destruct (a ?= b); split; congruence.
Qed.

Lemma Qleb_le (a b : Q) : Qleb a b = true <-> a <= b.
Proof.
  unfold Qleb. rewrite Qle_alt. destruct (a ?= b); split; congruence.
Qed.

Lemma Qeqb_eq (a b : Q) : Qeqb a b = true <-> a == b.
Proof.
  unfold Qeqb. rewrite Qeq_alt. destruct (a ?= b); split; congruence.
Qed.

Lemma Qltb_ge (a b : Q) : Qltb a b = false <-> b <= a.
Proof.
  rewrite <- not_true_iff_false, Qltb_lt. split; [apply Qnot_lt_le | apply Qle_not_lt].
Qed.

Lemma Qleb_gt (a b : Q) : Qleb a b = false <-> b < a.
Proof.
  rewrite <- not_true_iff_false, Qleb_le. split; [apply Qnot_le_lt | apply Qlt_not_le].
Qed.

Lemma Qeqb_neq (a b : Q) : Qeqb a b = false <-> ~ a == b.
Proof.
  rewrite <- not_true_iff_false, Qeqb_eq. tauto.
Qed.

(** Case analysis on a boolean comparison, leaving the order fact in the
    context. *)
Ltac case_Qltb a b :=
  let E := fresh "E" in
  destruct (Qltb a b) eqn:E; [apply Qltb_lt in E | apply Qltb_ge in E].

Ltac case_Qleb a b :=
  let E := fresh "E" in
  destruct (Qleb a b) eqn:E; [apply Qleb_le in E | apply Qleb_gt in E].

Ltac case_Qeqb a b :=
  let E := fresh "E" in
  destruct (Qeqb a b) eqn:E; [apply Qeqb_eq in E | apply Qeqb_neq in E].

Lemma py_max_Qmax (a b : Q) : py_max a b == Qmax a b.
Proof.
  unfold py_max; simpl. case_Qltb a b.
  - symmetry. apply Q.max_r. lra.
  - symmetry. apply Q.max_l. exact E.
Qed.

Lemma py_min_Qmin (a b : Q) : py_min a b == Qmin a b.
Proof.
  unfold py_min; simpl. case_Qltb b a.
  - symmetry. apply Q.min_r. lra.
  - symmetry. apply Q.min_l. exact E.
Qed.



Lemma is_long_true (side : string) : is_long side = true <-> side = "long"%string.
Proof. apply String.eqb_eq. Qed.


(** ** ROI/price conversion *)

Lemma py_div_ok (a b : Q) : ~ b == 0 -> py_div a b = Ok (a / b).
Proof.
  intros Hb. unfold py_div. apply Qeqb_neq in Hb. now rewrite Hb.
Qed.

Lemma py_div_zero (a b : Q) : b == 0 -> py_div a b = Raise ZeroDivisionError.
Proof.
  intros Hb. unfold py_div. apply Qeqb_eq in Hb. now rewrite Hb.
Qed.


(** With the module's leverage the conversion to a price cannot fail. *)
Lemma pct_to_price_LEVERAGE (side : string) (entry roi : Q) :
  pct_to_price side entry roi LEVERAGE =
  Ok (if is_long side
      then entry * (1 + roi / inject_Z LEVERAGE / 100)
      else entry * (1 - roi / inject_Z LEVERAGE / 100)).
Proof. reflexivity. Qed.

Lemma pct_to_price_proper (side : string) (entry r1 r2 p1 p2 : Q) :
  r1 == r2 ->
  pct_to_price side entry r1 LEVERAGE = Ok p1 ->
  pct_to_price side entry r2 LEVERAGE = Ok p2 ->
  p1 == p2.
Proof.
  intros Hr H1 H2. rewrite pct_to_price_LEVERAGE in H1, H2.
  injection H1 as <-. injection H2 as <-.
  destruct (is_long side); rewrite Hr; reflexivity.
Qed.




(** ** Trailing-stop engine *)

Lemma compute_trailing_stop_unfold (side : string) (entry peak : Q)
    (cfg : TrailingStopConfig) (cur : option Q) :
  compute_trailing_stop side entry peak cfg cur =
  (cap <- pct_to_price side entry (- stop_loss_roi cfg) LEVERAGE ;;
   let candidate :=
     if Qleb (start_roi cfg) peak
     then
       match pct_to_price side entry (py_max 0 (peak - step_roi cfg)) LEVERAGE with
       | Ok trail => if is_long side then py_max cap trail else py_min cap trail
       | Raise _ => cap
       end
     else cap in
   Ok match cur with
      | Some c => if is_long side then py_max candidate c else py_min candidate c
      | None => candidate
      end).
Proof.
  unfold compute_trailing_stop. rewrite !pct_to_price_LEVERAGE. simpl.
  destruct (Qleb (start_roi cfg) peak), cur; reflexivity.
Qed.

(** C1: with no previous stop, below [start_roi] the stop is the static
    cap [pct_to_price(side, entry, -stop_loss_roi)]; at or above
    [start_roi] it is the more favourable (max for long, min otherwise)
    of the cap and [pct_to_price(side, entry, max(0, peak - step_roi))].
    With start 10, step 8, stop-loss 9, entry 2000, long: peak 5 gives
    the price of ROI -9, peak 10 the price of ROI 2, and peak 26 on top
    of the peak-10 stop the price of ROI 18.  Neither the sign of the
    entry price nor that of the configuration is needed. *)
Theorem compute_trailing_stop_levels :
  (forall (side : string) (entry peak : Q) (cfg : TrailingStopConfig),
      exists cap,
        pct_to_price side entry (- stop_loss_roi cfg) LEVERAGE = Ok cap
        /\ (peak < start_roi cfg ->
            compute_trailing_stop side entry peak cfg None = Ok cap)
        /\ (start_roi cfg <= peak ->
            exists trail v,
              pct_to_price side entry (Qmax 0 (peak - step_roi cfg)) LEVERAGE = Ok trail
              /\ compute_trailing_stop side entry peak cfg None = Ok v
              /\ v == (if is_long side then Qmax cap trail else Qmin cap trail)))
  /\ compute_trailing_stop "long" 2000 5 TrailingStopConfig_default None
     = pct_to_price "long" 2000 (-9) LEVERAGE
  /\ compute_trailing_stop "long" 2000 10 TrailingStopConfig_default None
     = pct_to_price "long" 2000 2 LEVERAGE
  /\ (exists activated,
        compute_trailing_stop "long" 2000 10 TrailingStopConfig_default None
        = Ok activated
        /\ compute_trailing_stop "long" 2000 26 TrailingStopConfig_default (Some activated)
           = pct_to_price "long" 2000 18 LEVERAGE).
Proof.
  split; [| split; [reflexivity | split; [reflexivity |]]].
  - intros side entry peak cfg.
    rewrite compute_trailing_stop_unfold.
    destruct (pct_to_price side entry (- stop_loss_roi cfg) LEVERAGE) as [cap |] eqn:Hcap;
      [| rewrite pct_to_price_LEVERAGE in Hcap; discriminate].
    exists cap. split; [reflexivity |]. cbn [bind]. split.
    + intros Hlt. apply Qleb_gt in Hlt. now rewrite Hlt.
    + intros Hge. apply Qleb_le in Hge. rewrite Hge.
      destruct (pct_to_price side entry (Qmax 0 (peak - step_roi cfg)) LEVERAGE)
        as [trail |] eqn:Htrail;
        [| rewrite pct_to_price_LEVERAGE in Htrail; discriminate].
      destruct (pct_to_price side entry (py_max 0 (peak - step_roi cfg)) LEVERAGE)
        as [trail' |] eqn:Htrail';
        [| rewrite pct_to_price_LEVERAGE in Htrail'; discriminate].
      assert (Heq : trail' == trail).
      { eapply pct_to_price_proper; [apply py_max_Qmax | eassumption | eassumption]. }
      exists trail. eexists. split; [reflexivity |]. split; [reflexivity |].
      destruct (is_long side).
      * rewrite py_max_Qmax. apply Q.max_compat; [reflexivity | exact Heq].
      * rewrite py_min_Qmin. apply Q.min_compat; [reflexivity | exact Heq].
  - eexists. split; reflexivity.
Qed.

Lemma compute_trailing_stop_levels_witness :
  exists cap trail v,
    pct_to_price "short" 2000 (- (9)) LEVERAGE = Ok cap
    /\ pct_to_price "short" 2000 (Qmax 0 (12 - 8)) LEVERAGE = Ok trail
    /\ compute_trailing_stop "short" 2000 12 TrailingStopConfig_default None = Ok v
    /\ v == Qmin cap trail.
Proof.
  destruct (proj1 compute_trailing_stop_levels "short"%string 2000 12
              TrailingStopConfig_default) as [cap [Hcap [_ Hact]]].
  destruct Hact as [trail [v [Htrail [Hv Hfav]]]]; [vm_compute; discriminate |].
  exists cap, trail, v. repeat split; assumption.
Defined.



(** ** The side argument *)



(** ** Position sizer *)

Lemma py_max_Z (a b : Z) : py_max a b = Z.max b a.
Proof.
  unfold py_max; simpl. destruct (Z.ltb_spec a b); lia.
Qed.

Lemma float_of_int_raises (z : Z) (e : exn) :
  Binary64.float_of_int z = Raise e -> e = OverflowError.
Proof.
  unfold Binary64.float_of_int.
  destruct (binary_normalize prec emax z 0 false); intros H;
    first [discriminate H | now injection H].
Qed.

(** C4 (as amended), over doubles: [determine_position_size] raises
    its validation error when [balance <= 0] and only then; for every
    other balance, a leverage that converts to a double, and
    [entry_price * multiplier] other than zero, it forms the quotient
    [((balance * (risk_percent / 100)) * leverage)
     / (entry_price * multiplier)]
    in double arithmetic, every operation rounded, and when that double
    is finite it returns [max(1, floor q)] for the number [q] the double
    stands for; balance 5000, risk 1, leverage 100, entry 2000,
    multiplier 1 give 2. *)
Theorem determine_position_size_spec :
  (forall (balance entry percent : PrimFloat.float) (leverage : Z)
          (multiplier : PrimFloat.float),
      (PrimFloat.leb balance 0 = true <->
       Binary64.determine_position_size balance entry percent leverage multiplier
       = Raise (ValueError "Account balance must be positive to size a position"))
      /\ (forall (lev : PrimFloat.float) (q : Q),
             PrimFloat.leb balance 0 = false ->
             Binary64.float_of_int leverage = Ok lev ->
             PrimFloat.eqb (entry * multiplier) 0 = false ->
             Binary64.exact (balance * (percent / 100) * lev / (entry * multiplier))
             = Some q ->
             Binary64.determine_position_size balance entry percent leverage multiplier
             = Ok (Z.max 1 (Qfloor q))))
  /\ Binary64.determine_position_size 5000 2000 1 100 1 = Ok 2%Z.
Proof.
  split; [| vm_compute; reflexivity].
  intros balance entry percent leverage multiplier.
  unfold Binary64.determine_position_size. split; [split |].
  - intros Hb. now rewrite Hb.
  - destruct (PrimFloat.leb balance 0); [reflexivity |].
    destruct (Binary64.float_of_int leverage) as [lev | e] eqn:Hlev;
      [| apply float_of_int_raises in Hlev as ->; discriminate].
    rewrite bind_Ok. unfold Binary64.py_div.
    destruct (PrimFloat.eqb (entry * multiplier) 0); [discriminate |].
    rewrite bind_Ok. unfold Binary64.math_floor.
    destruct (Binary64.exact _); [discriminate |].
    destruct (Binary64.isnan _); discriminate.
  - intros lev q Hb Hlev Hden Hq. rewrite Hb, Hlev, bind_Ok.
    unfold Binary64.py_div. rewrite Hden, bind_Ok.
    unfold Binary64.math_floor. rewrite Hq, bind_Ok. now rewrite py_max_Z.
Qed.

Lemma determine_position_size_spec_witness :
  Binary64.determine_position_size 0 2000 1 100 1
  = Raise (ValueError "Account balance must be positive to size a position")
  /\ exists q,
       Binary64.exact (3 * (50 / 100) * 10 / (2 * 0.5)) = Some q
       /\ q == 15
       /\ Binary64.determine_position_size 3 2 50 10 0.5 = Ok (Z.max 1 (Qfloor q)).
Proof.
  split.
  - apply (proj1 (proj1 (proj1 determine_position_size_spec 0 2000 1 100%Z 1)%float)).
    reflexivity.
  - eexists. split; [vm_compute; reflexivity |]. split; [reflexivity |].
    apply (proj2 (proj1 determine_position_size_spec 3 2 50 10%Z 0.5)%float 10%float);
      reflexivity.
Defined.

(** C4 as stated fails in four ways for a positive balance.  At entry
    price 0 the division raises.  At balance 1, risk 29, leverage 100,
    entry 1 the double quotient is [28.999999999999996], so the size is
    28, where the formula of the claim gives [floor 29 = 29].  At
    balance [2^1023], risk 100, entry 2000 the notional overflows to
    infinity and [math.floor] raises [OverflowError].  And with entry
    [2^1023] and multiplier 2 the divisor overflows as well, the
    quotient is NaN and [math.floor] raises a [ValueError] of its own:
    a [ValueError] with a positive balance. *)
Lemma determine_position_size_off_formula :
  (PrimFloat.ltb 0 5000 = true
   /\ Binary64.determine_position_size 5000 0 1 100 1 = Raise ZeroDivisionError)
  /\ (PrimFloat.ltb 0 1 = true
      /\ Binary64.determine_position_size 1 1 29 100 1 = Ok 28%Z
      /\ Z.max 1 (Qfloor ((1 * (29 / 100) * inject_Z 100) / (1 * 1))) = 29%Z)
  /\ (PrimFloat.ltb 0 0x1p1023 = true
      /\ Binary64.determine_position_size 0x1p1023 2000 100 100 1
         = Raise OverflowError
      /\ Binary64.determine_position_size 0x1p1023 0x1p1023 100 100 2
         = Raise (ValueError "cannot convert float NaN to integer")).
Proof.
  repeat split; vm_compute; reflexivity.
Qed.

(** ** Signal scorer *)

(** C8: a snapshot whose MACD delta series has fewer than two
    observations yields side none together with the insufficiency
    reason, and nothing is raised. *)
Theorem determine_signal_insufficient_data
    (indicators : Indicators) (inputs : StrategyInputs) :
  (length (ind_delta_series indicators) < 2)%nat ->
  determine_signal indicators inputs
  = Ok (None, [("reason"%string, PyStr "insufficient data for MACD crossover")]).
Proof.
  intros Hlen. unfold determine_signal.
  apply Nat.ltb_lt in Hlen. now rewrite Hlen.
Qed.

Lemma determine_signal_insufficient_data_witness :
  determine_signal Indicators_one_bar StrategyInputs_default
  = Ok (None, [("reason"%string, PyStr "insufficient data for MACD crossover")]).
Proof.
  apply (determine_signal_insufficient_data Indicators_one_bar StrategyInputs_default).
  simpl. lia.
Defined.

(** With two observations the scorer runs in full: an upward crossing
    that passes every gate fires a long. *)
Example determine_signal_fires_long :
  exists scores v,
    determine_signal Indicators_crossing_up StrategyInputs_relaxed
    = Ok (Some "long"%string, scores)
    /\ hd_error scores = Some ("score_long"%string, PyFloat (Some v))
    /\ v == 93.
Proof.
  eexists. eexists. split; [vm_compute; reflexivity |].
  split; reflexivity.
Qed.

(** ** Plan builder *)

Lemma py_max_same (a : Q) : py_max a a = a.
Proof.
  unfold py_max; simpl. case_Qltb a a; [lra | reflexivity].
Qed.

Lemma py_min_same (a : Q) : py_min a a = a.
Proof.
  unfold py_min; simpl. case_Qltb a a; [lra | reflexivity].
Qed.







(** ** Normaliser *)

Lemma clamp_0_100 (x : float) :
  exists v, py_max (Some 0) (py_min (Some 100) x) = Some v /\ 0 <= v <= 100.
Proof.
  unfold py_max, py_min; simpl.
  destruct x as [x |]; simpl.
  - case_Qltb x 100; simpl.
    + case_Qltb 0 x.
      * exists x. split; [reflexivity | lra].
      * exists 0. split; [reflexivity | lra].
    + exists 100. split; [reflexivity | lra].
  - exists 100. split; [reflexivity | lra].
Qed.

Lemma iloc_last (s : series) : s <> [] -> iloc s (-1) = Ok (last s NaN).
Proof.
  intros Hs. unfold iloc.
  assert (Hlen : (0 < length s)%nat) by (destruct s; [congruence | simpl; lia]).
  change (-1 <? 0)%Z with true. cbv iota.
  assert (Hb : ((0 <=? Z.of_nat (length s) + -1)%Z
                && (Z.of_nat (length s) + -1 <? Z.of_nat (length s))%Z)%bool = true).
  { apply andb_true_intro. split; [apply Z.leb_le | apply Z.ltb_lt]; lia. }
  rewrite Hb. f_equal.
  replace (Z.to_nat (Z.of_nat (length s) + -1)) with (length s - 1)%nat by lia.
  clear Hb Hlen. induction s as [| x [| y t] IH]; [congruence | reflexivity |].
  change (last (x :: y :: t) NaN) with (last (y :: t) NaN).
  rewrite <- IH by discriminate. simpl. now rewrite Nat.sub_0_r.
Qed.

Lemma tail_is_skipn (s : series) (n : Z) :
  tail s n <> [] -> exists k, tail s n = skipn k s.
Proof.
  unfold tail. destruct (n =? 0)%Z; [congruence |].
  destruct (0 <? n)%Z; intros _; eexists; reflexivity.
Qed.

Lemma last_skipn (k : nat) (s : series) :
  skipn k s <> [] -> last (skipn k s) NaN = last s NaN.
Proof.
  revert s. induction k as [| k IH]; intros s Hne; [reflexivity |].
  destruct s as [| x t]; [reflexivity |].
  simpl in Hne |- *. rewrite (IH t Hne).
  destruct t as [| y t']; [| reflexivity].
  rewrite skipn_nil in Hne. congruence.
Qed.

Lemma last_cons_default {A : Type} (x : A) (l : list A) (d d' : A) :
  last (x :: l) d = last (x :: l) d'.
Proof.
  revert x. induction l as [| y l IH]; intros x; [reflexivity |].
  change (last (x :: y :: l) d) with (last (y :: l) d).
  change (last (x :: y :: l) d') with (last (y :: l) d').
  apply IH.
Qed.

Lemma last_map_Some (a : Q) (t : list Q) :
  last (map Some (a :: t)) NaN = Some (last (a :: t) a).
Proof.
  revert a. induction t as [| b t IH]; intros a; [reflexivity |].
  change (last (map Some (a :: b :: t)) NaN) with (last (map Some (b :: t)) NaN).
  change (last (a :: b :: t) a) with (last (b :: t) a).
  rewrite IH. f_equal. apply last_cons_default.
Qed.

(** The minimum of a rising window is its first cell. *)
Lemma smin_increasing (t : list Q) (a acc : Q) :
  acc <= a -> strictly_increasing_from a t ->
  exists m, fold_left (skipna_step Qmin) (map Some t) (Some acc) = Some m /\ m == acc.
Proof.
  revert a acc. induction t as [| b t IH]; intros a acc Hacc Hinc.
  - exists acc. split; reflexivity.
  - destruct Hinc as [Hab Hinc]. simpl.
    assert (Hmin : Qmin acc b == acc) by (apply Q.min_l; lra).
    destruct (IH b (Qmin acc b)) as [m [Hm Heq]]; [rewrite Hmin; lra | exact Hinc |].
    exists m. split; [exact Hm | now rewrite Heq].
Qed.

(** The maximum of a rising window is its last cell. *)
Lemma smax_increasing (t : list Q) (a acc : Q) :
  acc == a -> strictly_increasing_from a t ->
  exists m, fold_left (skipna_step Qmax) (map Some t) (Some acc) = Some m
            /\ m == last (a :: t) a.
Proof.
  revert a acc. induction t as [| b t IH]; intros a acc Hacc Hinc.
  - exists acc. split; [reflexivity | exact Hacc].
  - destruct Hinc as [Hab Hinc]. simpl fold_left.
    assert (Hmax : Qmax acc b == b) by (apply Q.max_r; lra).
    destruct (IH b (Qmax acc b) Hmax Hinc) as [m [Hm Heq]].
    exists m. split; [exact Hm |]. rewrite Heq.
    change (last (a :: b :: t) a) with (last (b :: t) a).
    rewrite (last_cons_default b t a b). reflexivity.
Qed.

Lemma tail_nil (n : Z) : tail [] n = [].
Proof.
  unfold tail. destruct (n =? 0)%Z; [reflexivity |].
  destruct (0 <? n)%Z; apply skipn_nil.
Qed.

Lemma isclose_same (lo hi : Q) : lo == hi -> isclose (Some lo) (Some hi) = true.
Proof.
  intros H. unfold isclose, isclose_with. apply Qeqb_eq in H. now rewrite H.
Qed.

Lemma isclose_false_neq (lo hi : Q) :
  isclose (Some lo) (Some hi) = false -> ~ hi - lo == 0.
Proof.
  unfold isclose, isclose_with. intros H.
  apply orb_false_elim in H as [H _]. apply orb_false_elim in H as [H _].
  apply orb_false_elim in H as [H _]. apply Qeqb_neq in H. lra.
Qed.

(** C6 (as amended): [normalize_series] returns 0 for the empty series
    and for every series whose trailing window is flat (max == min); for
    every series whose trailing window rises strictly and whose minimum
    and maximum [math.isclose] tells apart it returns 100; and for every
    input it returns a number in [0, 100]. *)
Theorem normalize_series_spec :
  (forall lookback : Z, normalize_series [] lookback = Ok (Some 0))
  /\ (forall (s : series) (lookback : Z) (lo hi : Q),
         smin (tail s lookback) = Some lo ->
         smax (tail s lookback) = Some hi ->
         lo == hi ->
         normalize_series s lookback = Ok (Some 0))
  /\ (forall (s : series) (lookback : Z) (a : Q) (t : list Q),
         tail s lookback = map Some (a :: t) ->
         strictly_increasing_from a t ->
         isclose (smin (tail s lookback)) (smax (tail s lookback)) = false ->
         normalize_series s lookback = Ok (Some 100))
  /\ (forall (s : series) (lookback : Z),
         exists v, normalize_series s lookback = Ok (Some v) /\ 0 <= v <= 100).
Proof.
  split; [reflexivity |]. split; [| split].
  - intros s lookback lo hi Hlo Hhi Heq. unfold normalize_series.
    destruct (empty s); [reflexivity |].
    now rewrite Hlo, Hhi, (isclose_same lo hi Heq).
  - intros s lookback a t Hwin Hinc Hfar.
    assert (Hs : s <> []).
    { intros ->. rewrite tail_nil in Hwin. discriminate Hwin. }
    assert (Hcur : last s NaN = Some (last (a :: t) a)).
    { destruct (tail_is_skipn s lookback) as [k Hk]; [rewrite Hwin; discriminate |].
      rewrite <- last_map_Some, <- Hwin, Hk.
      symmetry. apply last_skipn. rewrite <- Hk, Hwin. discriminate. }
    destruct (smin_increasing t a a) as [lo [Hlo Elo]]; [lra | exact Hinc |].
    destruct (smax_increasing t a a) as [hi [Hhi Ehi]]; [reflexivity | exact Hinc |].
    assert (Hmin : smin (tail s lookback) = Some lo) by (rewrite Hwin; exact Hlo).
    assert (Hmax : smax (tail s lookback) = Some hi) by (rewrite Hwin; exact Hhi).
    rewrite Hmin, Hmax in Hfar.
    pose proof (isclose_false_neq lo hi Hfar) as Hden.
    unfold normalize_series.
    destruct s as [| c s']; [congruence |]. cbn [empty].
    rewrite Hmin, Hmax, Hfar, (iloc_last (c :: s') Hs), Hcur. cbn [bind].
    cbn [fsub flift2 fdiv].
    apply Qeqb_neq in Hden. rewrite Hden. cbn [fmul flift2].
    apply Qeqb_neq in Hden.
    set (x := (last (a :: t) a - lo) / (hi - lo) * 100).
    assert (Hx : x == 100) by (unfold x; rewrite <- Ehi; field; exact Hden).
    unfold py_min, py_max; simpl.
    assert (Hlt : Qltb x 100 = false) by (apply Qltb_ge; lra).
    rewrite Hlt. reflexivity.
  - intros s lookback. unfold normalize_series.
    destruct s as [| c s']; [exists 0; split; [reflexivity | lra] |]. cbn [empty].
    destruct (isclose _ _); [exists 0; split; [reflexivity | lra] |].
    rewrite iloc_last by discriminate. cbn [bind].
    destruct (clamp_0_100
                (fmul (fdiv (fsub (last (c :: s') NaN) (smin (tail (c :: s') lookback)))
                            (fsub (smax (tail (c :: s') lookback))
                                  (smin (tail (c :: s') lookback))))
                      (Some 100))) as [v [Hv Hr]].
    exists v. split; [now rewrite Hv | exact Hr].
Qed.

Lemma normalize_series_spec_witness :
  normalize_series [Some 7; Some 7; Some 7] 2 = Ok (Some 0)
  /\ normalize_series [Some 5; Some 1; Some 2; Some 4] 3 = Ok (Some 100).
Proof.
  split.
  - apply (proj1 (proj2 normalize_series_spec) [Some 7; Some 7; Some 7] 2%Z 7 7);
      reflexivity.
  - apply (proj1 (proj2 (proj2 normalize_series_spec))
             [Some 5; Some 1; Some 2; Some 4] 3%Z 1 [2; 4]);
      [reflexivity | | reflexivity].
    simpl. repeat split.
Defined.

(** C6 as stated fails on a rising window whose ends [math.isclose]
    cannot tell apart: the window counts as flat and the result is 0. *)
Lemma normalize_series_rising_but_close :
  tail [Some 1; Some (1 + 1e-10)] 2 = map Some [1; 1 + 1e-10]
  /\ strictly_increasing_from 1 [1 + 1e-10]
  /\ normalize_series [Some 1; Some (1 + 1e-10)] 2 = Ok (Some 0)
  /\ normalize_series [Some 1; Some (1 + 1e-10)] 2 <> Ok (Some 100).
Proof.
  split; [reflexivity |]. split; [split; [reflexivity | exact I] |].
  split; [reflexivity | discriminate].
Qed.

(** ** Series and rolling windows *)

Lemma length_align (f : float -> float -> float) (a b : series) :
  length (align f a b) = Nat.max (length a) (length b).
Proof.
  revert b. induction a as [| x a IH]; intros b.
  - simpl. apply length_map.
  - destruct b as [| y b]; simpl.
    + now rewrite length_map.
    + now rewrite IH.
Qed.

Lemma nth_error_align (f : float -> float -> float) (a b : series) (i : nat) :
  (i < Nat.max (length a) (length b))%nat ->
  nth_error (align f a b) i = Some (f (nth i a NaN) (nth i b NaN)).
Proof.
  revert b i. induction a as [| x a IH]; intros b i Hi.
  - simpl in Hi |- *. rewrite nth_error_map.
    destruct (nth_error b i) as [y |] eqn:Hy.
    + rewrite (nth_error_nth _ _ NaN Hy). now destruct i.
    + apply nth_error_None in Hy. lia.
  - destruct b as [| y b].
    + cbn [align]. rewrite nth_error_map.
      destruct (nth_error (x :: a) i) as [v |] eqn:Hv.
      * rewrite (nth_error_nth _ _ NaN Hv). now destruct i.
      * apply nth_error_None in Hv. simpl in Hi, Hv. lia.
    + destruct i as [| i]; [reflexivity |].
      simpl in Hi |- *. apply IH. lia.
Qed.

Lemma align_repeat (f : float -> float -> float) (x y : float) (n : nat) :
  align f (repeat x n) (repeat y n) = repeat (f x y) n.
Proof.
  induction n as [| n IH]; [reflexivity |]. simpl. now rewrite IH.
Qed.

Lemma align_nan_left (f : float -> float -> float) (b : series) :
  (forall y, f NaN y = NaN) ->
  align f (repeat NaN (length b)) b = repeat NaN (length b).
Proof.
  intros Hf. induction b as [| y b IH]; [reflexivity |].
  simpl. now rewrite Hf, IH.
Qed.

Lemma bfill_all_nan (n : nat) : bfill (repeat NaN n) = repeat NaN n.
Proof.
  induction n as [| n IH]; [reflexivity |].
  simpl. rewrite IH. now destruct n.
Qed.

Lemma length_diff (s : series) : length (diff s) = length s.
Proof.
  destruct s as [| x t]; [reflexivity |].
  simpl. rewrite length_map, length_combine. simpl. f_equal. lia.
Qed.

Lemma length_shift1 (s : series) : length (shift1 s) = length s.
Proof.
  destruct s as [| x t]; [reflexivity |].
  unfold shift1. cbn [length]. f_equal.
  assert (H : forall (l : series) (a : float), length (removelast (a :: l)) = length l).
  { induction l as [| b l IH]; intros a; [reflexivity |].
    change (removelast (a :: b :: l)) with (a :: removelast (b :: l)).
    cbn [length]. f_equal. apply IH. }
  apply H.
Qed.

Lemma length_valid_cells (w : series) : (length (valid_cells w) <= length w)%nat.
Proof.
  induction w as [| [v |] w IH]; simpl; lia.
Qed.

Lemma length_rolling_window (window i : nat) (s : series) :
  (length (rolling_window window i s) <= length s)%nat.
Proof.
  unfold rolling_window. rewrite length_skipn, length_firstn. lia.
Qed.

Lemma window_mean_needs_min_periods : needs_min_periods window_mean.
Proof.
  intros minp w H. unfold window_mean.
  apply Nat.leb_gt in H. now rewrite H.
Qed.

Lemma window_std0_needs_min_periods (fsqrt : Q -> Q) :
  needs_min_periods (window_std0 fsqrt).
Proof.
  intros minp w H. unfold window_std0.
  apply Nat.leb_gt in H. now rewrite H.
Qed.

Lemma rolling_validate_window (window : Z) :
  (0 <= window)%Z ->
  rolling_validate window None = Ok (Z.to_nat window, Z.to_nat window)
  /\ rolling_validate window (Some window) = Ok (Z.to_nat window, Z.to_nat window).
Proof.
  intros H. unfold rolling_validate.
  assert (H1 : (window <? 0)%Z = false) by (apply Z.ltb_ge; lia).
  assert (H2 : (window <? window)%Z = false) by (apply Z.ltb_ge; lia).
  now rewrite H1, H2.
Qed.

Lemma rolling_apply_ok (agg : nat -> series -> float) (window : Z)
    (min_periods : option Z) (s : series) (p : nat * nat) :
  rolling_validate window min_periods = Ok p ->
  rolling_apply agg window min_periods s
  = Ok (map (fun i => agg (snd p) (rolling_window (fst p) i s)) (seq 0 (length s))).
Proof.
  intros H. unfold rolling_apply. now rewrite H.
Qed.

Lemma rolling_apply_inv (agg : nat -> series -> float) (window : Z)
    (min_periods : option Z) (s r : series) :
  rolling_apply agg window min_periods s = Ok r ->
  exists p, rolling_validate window min_periods = Ok p
            /\ r = map (fun i => agg (snd p) (rolling_window (fst p) i s))
                       (seq 0 (length s)).
Proof.
  unfold rolling_apply. destruct (rolling_validate window min_periods) as [p | e];
    cbn [bind]; intros H; [| discriminate].
  exists p. split; [reflexivity | congruence].
Qed.

(** A series shorter than the window leaves every row without enough
    observations. *)
Lemma rolling_apply_short (agg : nat -> series -> float) (window : Z)
    (min_periods : option Z) (s : series) :
  needs_min_periods agg ->
  (min_periods = None \/ min_periods = Some window) ->
  (Z.of_nat (length s) < window)%Z ->
  rolling_apply agg window min_periods s = Ok (repeat NaN (length s)).
Proof.
  intros Hagg Hmp Hshort.
  destruct (rolling_validate_window window) as [HN HS]; [lia |].
  assert (Hv : rolling_validate window min_periods
               = Ok (Z.to_nat window, Z.to_nat window))
    by (destruct Hmp as [-> | ->]; assumption).
  rewrite (rolling_apply_ok agg window min_periods s _ Hv). f_equal.
  cbn [fst snd].
  rewrite <- (length_seq (length s) 0) at 2. rewrite <- map_const.
  apply map_ext_in. intros i Hi. apply in_seq in Hi.
  apply Hagg.
  pose proof (length_valid_cells (rolling_window (Z.to_nat window) i s)).
  pose proof (length_rolling_window (Z.to_nat window) i s). lia.
Qed.

(** ** RSI *)

Lemma fdiv_nan_r (x : float) : fdiv x NaN = NaN.
Proof. now destruct x. Qed.

(** C5: wherever the rolling average loss over a full window is exactly
    zero, [ta_rsi] returns a series (it does not raise) whose value at
    that position is exactly 50. *)
Theorem ta_rsi_zero_average_loss
    (s : series) (length : Z) (avg_loss : series) (i : nat) (q : Q) :
  rsi_avg_loss s length = Ok avg_loss ->
  nth_error avg_loss i = Some (Some q) ->
  q == 0 ->
  exists rsi, ta_rsi s length = Ok rsi /\ nth_error rsi i = Some (Some 50).
Proof.
  intros Hloss Hcell Hzero.
  destruct (rolling_apply_inv _ _ _ _ _ Hloss) as [p [Hvalid _]].
  unfold ta_rsi. rewrite Hloss.
  unfold rsi_avg_gain, rolling_mean.
  rewrite (rolling_apply_ok window_mean length (Some length) (rsi_gain s) p Hvalid).
  cbn [bind]. eexists. split; [reflexivity |].
  unfold fillna. rewrite !nth_error_map.
  assert (Hi : (i < List.length avg_loss)%nat)
    by (apply nth_error_Some; rewrite Hcell; discriminate).
  rewrite nth_error_align
    by (unfold replace_zero_nan; rewrite (length_map _ avg_loss); lia).
  assert (Hnan : nth i (replace_zero_nan avg_loss) NaN = NaN).
  { apply nth_error_nth. unfold replace_zero_nan.
    rewrite nth_error_map, Hcell. cbn [option_map].
    apply Qeqb_eq in Hzero. now rewrite Hzero. }
  rewrite Hnan, fdiv_nan_r. reflexivity.
Qed.

Lemma ta_rsi_zero_average_loss_witness :
  exists rsi,
    ta_rsi [Some 1; Some 2; Some 3] 2 = Ok rsi
    /\ nth_error rsi 2 = Some (Some 50).
Proof.
  apply (ta_rsi_zero_average_loss [Some 1; Some 2; Some 3] 2
           [NaN; NaN; Some (0 # 2)] 2 (0 # 2));
    reflexivity.
Defined.

(** ** Indicators on a series shorter than the window *)

Lemma length_rsi_gain (s : series) : List.length (rsi_gain s) = List.length s.
Proof.
  unfold rsi_gain, clip_lower, rsi_delta. now rewrite length_map, length_diff.
Qed.

Lemma length_rsi_loss (s : series) : List.length (rsi_loss s) = List.length s.
Proof.
  unfold rsi_loss, sneg, clip_upper, rsi_delta.
  now rewrite !length_map, length_diff.
Qed.

(** C7 (as amended): on a series shorter than the window no indicator
    raises; ATR, Bollinger width and the volume average return NaN in
    every row, while RSI returns the neutral value 50 in every row. *)
Theorem indicators_on_short_series :
  (forall (highs lows closes : series) (length : Z),
      (Z.of_nat (List.length highs) < length)%Z ->
      (Z.of_nat (List.length lows) < length)%Z ->
      (Z.of_nat (List.length closes) < length)%Z ->
      exists n,
        ta_atr highs lows closes length = Ok (repeat NaN n)
        /\ n = Nat.max (List.length highs)
                 (Nat.max (List.length lows) (List.length closes)))
  /\ (forall (fsqrt : Q -> Q) (closes : series),
         (List.length closes < 20)%nat ->
         bb_width_series_of fsqrt closes = Ok (repeat NaN (List.length closes)))
  /\ (forall (volumes : series) (volume_ma_length : Z),
         (Z.of_nat (List.length volumes) < volume_ma_length)%Z ->
         vol_ma_series_of volumes volume_ma_length
         = Ok (repeat NaN (List.length volumes)))
  /\ (forall (s : series) (length : Z),
         (Z.of_nat (List.length s) < length)%Z ->
         ta_rsi s length = Ok (repeat (Some 50) (List.length s))).
Proof.
  split; [| split; [| split]].
  - intros highs lows closes length Hh Hl Hc. unfold ta_atr.
    set (tr := row_max _ _).
    assert (Hlen : List.length tr
                   = Nat.max (List.length highs)
                       (Nat.max (List.length lows) (List.length closes))).
    { unfold tr, row_max, sabs.
      rewrite !length_align, !length_map, !length_align, length_shift1. lia. }
    unfold rolling_mean.
    rewrite (rolling_apply_short window_mean length (Some length) tr
               window_mean_needs_min_periods (or_intror eq_refl)) by lia.
    cbn [bind]. rewrite bfill_all_nan.
    eexists. split; [reflexivity | exact Hlen].
  - intros fsqrt closes Hshort. unfold bb_width_series_of, rolling_mean, rolling_std0.
    rewrite (rolling_apply_short window_mean 20 None closes
               window_mean_needs_min_periods (or_introl eq_refl)) by lia.
    cbn [bind].
    rewrite (rolling_apply_short (window_std0 fsqrt) 20 None closes
               (window_std0_needs_min_periods fsqrt) (or_introl eq_refl)) by lia.
    cbn [bind].
    rewrite map_repeat, !align_repeat. cbn [fmul fadd fsub flift2 NaN].
    rewrite (align_nan_left fdiv closes) by reflexivity.
    now rewrite map_repeat.
  - intros volumes volume_ma_length Hshort. unfold vol_ma_series_of, rolling_mean.
    apply rolling_apply_short;
      [apply window_mean_needs_min_periods | now left | exact Hshort].
  - intros s length Hshort. unfold ta_rsi, rsi_avg_gain, rsi_avg_loss, rolling_mean.
    rewrite (rolling_apply_short window_mean length (Some length) (rsi_gain s)
               window_mean_needs_min_periods (or_intror eq_refl))
      by (rewrite length_rsi_gain; exact Hshort).
    cbn [bind].
    rewrite (rolling_apply_short window_mean length (Some length) (rsi_loss s)
               window_mean_needs_min_periods (or_intror eq_refl))
      by (rewrite length_rsi_loss; exact Hshort).
    cbn [bind].
    rewrite length_rsi_gain, length_rsi_loss.
    unfold replace_zero_nan, fillna.
    now rewrite map_repeat, align_repeat, !map_repeat.
Qed.

Lemma indicators_on_short_series_witness :
  (exists n,
      ta_atr [Some 3; Some 2] [Some 1; Some 1] [Some 2; Some 2] 14 = Ok (repeat NaN n)
      /\ n = 2%nat)
  /\ bb_width_series_of (fun x => x) [Some 3; Some 2; Some 4]
     = Ok [NaN; NaN; NaN]
  /\ vol_ma_series_of [Some 1200; Some 1300] 50 = Ok [NaN; NaN]
  /\ ta_rsi [Some 1; Some 2; Some 3] 14 = Ok [Some 50; Some 50; Some 50].
Proof.
  split; [| split; [| split]].
  - apply (proj1 indicators_on_short_series
             [Some 3; Some 2] [Some 1; Some 1] [Some 2; Some 2] 14%Z);
      reflexivity.
  - apply (proj1 (proj2 indicators_on_short_series) (fun x => x)
             [Some 3; Some 2; Some 4]).
    simpl. lia.
  - apply (proj1 (proj2 (proj2 indicators_on_short_series))
             [Some 1200; Some 1300] 50%Z).
    reflexivity.
  - apply (proj2 (proj2 (proj2 indicators_on_short_series))
             [Some 1; Some 2; Some 3] 14%Z).
    reflexivity.
Defined.

(** C7 as stated fails for RSI: on a series shorter than the window
    every row is the number 50, not an undefined value. *)
Lemma ta_rsi_short_series_is_defined :
  (Z.of_nat (List.length [Some 1; Some 2; Some 3]) < 14)%Z
  /\ ta_rsi [Some 1; Some 2; Some 3] 14 = Ok [Some 50; Some 50; Some 50]
  /\ ~ (exists rsi,
          ta_rsi [Some 1; Some 2; Some 3] 14 = Ok rsi
          /\ nth_error rsi 0 = Some NaN).
Proof.
  split; [reflexivity |]. split; [reflexivity |].
  intros [rsi [Hrsi Hcell]].
  vm_compute in Hrsi. injection Hrsi as <-. discriminate Hcell.
Qed.

(** ** The divisions of [ta_rsi] never meet a zero divisor *)

Lemma Forall_firstn {A : Type} (P : A -> Prop) (n : nat) (l : list A) :
  Forall P l -> Forall P (firstn n l).
Proof.
  intros H. rewrite <- (firstn_skipn n l) in H. now apply Forall_app in H.
Qed.

Lemma Forall_skipn {A : Type} (P : A -> Prop) (n : nat) (l : list A) :
  Forall P l -> Forall P (skipn n l).
Proof.
  intros H. rewrite <- (firstn_skipn n l) in H. now apply Forall_app in H.
Qed.

Lemma Forall_align (P R S : float -> Prop) (f : float -> float -> float)
    (a b : series) :
  P NaN -> R NaN ->
  (forall x y, P x -> R y -> S (f x y)) ->
  Forall P a -> Forall R b -> Forall S (align f a b).
Proof.
  intros HP HR Hf. revert b. induction a as [| x a IH]; intros b Ha Hb.
  - simpl. apply Forall_map. eapply Forall_impl; [| exact Hb].
    intros y Hy. now apply Hf.
  - destruct b as [| y b].
    + cbn [align]. apply Forall_map. eapply Forall_impl; [| exact Ha].
      intros v Hv. now apply Hf.
    + inversion Ha; subst. inversion Hb; subst.
      simpl. constructor; [now apply Hf | now apply IH].
Qed.

Lemma rsi_gain_nonneg (s : series) : Forall cell_nonneg (rsi_gain s).
Proof.
  unfold rsi_gain, clip_lower. apply Forall_map, Forall_forall.
  intros [v |] _; simpl; [| exact I].
  case_Qltb v 0; lra.
Qed.

Lemma rsi_loss_nonneg (s : series) : Forall cell_nonneg (rsi_loss s).
Proof.
  unfold rsi_loss, sneg, clip_upper. rewrite map_map.
  apply Forall_map, Forall_forall.
  intros [v |] _; simpl; [| exact I].
  case_Qltb 0 v; lra.
Qed.

Lemma valid_cells_nonneg (w : series) :
  Forall cell_nonneg w -> Forall (fun v => 0 <= v) (valid_cells w).
Proof.
  intros H. unfold valid_cells. apply Forall_flat_map.
  eapply Forall_impl; [| exact H].
  intros [v |] Hv; [constructor; [exact Hv | constructor] | constructor].
Qed.

Lemma Qsum_nonneg (l : list Q) : Forall (fun v => 0 <= v) l -> 0 <= Qsum l.
Proof.
  unfold Qsum. assert (G : forall acc, 0 <= acc ->
                             Forall (fun v => 0 <= v) l -> 0 <= fold_left Qplus l acc).
  { induction l as [| x l IH]; intros acc Hacc Hl; [exact Hacc |].
    inversion Hl; subst. simpl. apply IH; [lra | assumption]. }
  apply G. lra.
Qed.

Lemma window_mean_nonneg (minp : nat) (w : series) :
  Forall cell_nonneg w -> cell_nonneg (window_mean minp w).
Proof.
  intros H. unfold window_mean.
  destruct ((minp <=? List.length (valid_cells w))%nat
            && (0 <? List.length (valid_cells w))%nat)%bool eqn:E; [| exact I].
  apply andb_prop in E as [_ E]. apply Nat.ltb_lt in E. simpl.
  apply Qle_shift_div_l.
  - change 0 with (inject_Z 0). rewrite <- Zlt_Qlt. lia.
  - rewrite Qmult_0_l. apply Qsum_nonneg, valid_cells_nonneg, H.
Qed.

Lemma rolling_mean_nonneg (window : Z) (min_periods : option Z) (s r : series) :
  rolling_mean window min_periods s = Ok r ->
  Forall cell_nonneg s -> Forall cell_nonneg r.
Proof.
  intros Hr Hs. destruct (rolling_apply_inv _ _ _ _ _ Hr) as [p [_ ->]].
  apply Forall_map, Forall_forall. intros i _.
  apply window_mean_nonneg. unfold rolling_window.
  now apply Forall_skipn, Forall_firstn.
Qed.

Lemma replace_zero_nan_pos (l : series) :
  Forall cell_nonneg l -> Forall cell_pos (replace_zero_nan l).
Proof.
  intros H. unfold replace_zero_nan. apply Forall_map.
  eapply Forall_impl; [| exact H].
  intros [v |] Hv; [| exact I]. simpl in Hv.
  case_Qeqb v 0; simpl; [exact I | lra].
Qed.

Lemma fdiv_nonneg (x y : float) :
  cell_nonneg x -> cell_pos y -> cell_nonneg (fdiv x y).
Proof.
  destruct x as [x |], y as [y |]; simpl; try (intros; exact I).
  intros Hx Hy. case_Qeqb y 0; simpl; [exact I |].
  apply Qle_shift_div_l; lra.
Qed.

(** Both divisions of [ta_rsi] see a divisor that is NaN or non-zero:
    the average loss after its zeros were replaced, and [1 + rs] with
    [rs] non-negative.  The non-finite case of [fdiv] is therefore not
    what [fillna] fills. *)
Lemma ta_rsi_divisors_nonzero (s : series) (length : Z) (avg_gain avg_loss : series) :
  rsi_avg_gain s length = Ok avg_gain ->
  rsi_avg_loss s length = Ok avg_loss ->
  Forall cell_nonzero (replace_zero_nan avg_loss)
  /\ Forall cell_nonzero
       (map (fadd (Some 1)) (align fdiv avg_gain (replace_zero_nan avg_loss))).
Proof.
  intros Hgain Hloss.
  pose proof (rolling_mean_nonneg _ _ _ _ Hgain (rsi_gain_nonneg s)) as Ngain.
  pose proof (rolling_mean_nonneg _ _ _ _ Hloss (rsi_loss_nonneg s)) as Nloss.
  pose proof (replace_zero_nan_pos _ Nloss) as Ploss.
  split.
  - eapply Forall_impl; [| exact Ploss].
    intros [v |] Hv; simpl in *; [lra | exact I].
  - apply Forall_map.
    assert (Hrs : Forall cell_nonneg (align fdiv avg_gain (replace_zero_nan avg_loss))).
    { apply (Forall_align cell_nonneg cell_pos cell_nonneg);
        [exact I | exact I | apply fdiv_nonneg | exact Ngain | exact Ploss]. }
    eapply Forall_impl; [| exact Hrs].
    intros [v |] Hv; simpl in *; [lra | exact I].
Qed.

(* ================================================================== *)
(** * Further properties of the helpers *)

(** ** ROI/price conversion, both directions *)


Lemma price_to_roi_ok (s : string) (entry current : Q) (leverage : Z) :
  0 < entry ->
  price_to_roi s entry current leverage
  = Ok (if is_long s
        then (current - entry) / entry * 100 * inject_Z leverage
        else - ((current - entry) / entry * 100 * inject_Z leverage)).
Proof.
  intros He. unfold price_to_roi.
  assert (Hpos : Qleb entry 0 = false) by (apply Qleb_gt; exact He).
  assert (Hne : ~ entry == 0) by lra.
  now rewrite Hpos, (py_div_ok _ entry Hne).
Qed.










(** ** Trailing-stop engine: monotonicity, floors, fixed point, gap *)

Lemma LEVERAGE_scale (r : Q) : r / inject_Z LEVERAGE / 100 == r * (1 # 10000).
Proof. change (inject_Z LEVERAGE) with 100. field. Qed.





(** The value [compute_trailing_stop] returns, by cases on the side. *)
Lemma compute_trailing_stop_long (entry peak : Q) (cfg : TrailingStopConfig)
    (previous : option Q) :
  let cap := entry * (1 + - stop_loss_roi cfg / inject_Z LEVERAGE / 100) in
  let trail :=
    entry * (1 + py_max 0 (peak - step_roi cfg) / inject_Z LEVERAGE / 100) in
  let candidate := if Qleb (start_roi cfg) peak then py_max cap trail else cap in
  compute_trailing_stop "long" entry peak cfg previous
  = Ok match previous with
       | Some c => py_max candidate c
       | None => candidate
       end.
Proof.
  cbv zeta. rewrite compute_trailing_stop_unfold, !pct_to_price_LEVERAGE.
  reflexivity.
Qed.

Lemma compute_trailing_stop_other (s : string) (entry peak : Q)
    (cfg : TrailingStopConfig) (previous : option Q) :
  is_long s = false ->
  let cap := entry * (1 - - stop_loss_roi cfg / inject_Z LEVERAGE / 100) in
  let trail :=
    entry * (1 - py_max 0 (peak - step_roi cfg) / inject_Z LEVERAGE / 100) in
  let candidate := if Qleb (start_roi cfg) peak then py_min cap trail else cap in
  compute_trailing_stop s entry peak cfg previous
  = Ok match previous with
       | Some c => py_min candidate c
       | None => candidate
       end.
Proof.
  intros Hs. cbv zeta.
  rewrite compute_trailing_stop_unfold, !pct_to_price_LEVERAGE. cbn [bind].
  rewrite Hs. reflexivity.
Qed.







Lemma py_max_absorb (c p : Q) : py_max c (py_max c p) = py_max c p.
Proof.
  unfold py_max; cbn [py_lt PyOrd_Q].
  destruct (Qltb c p) eqn:E; [now rewrite E |].
  case_Qltb c c; [lra | reflexivity].
Qed.

Lemma py_min_absorb (c p : Q) : py_min c (py_min c p) = py_min c p.
Proof.
  unfold py_min; cbn [py_lt PyOrd_Q].
  destruct (Qltb p c) eqn:E; [now rewrite E |].
  case_Qltb c c; [lra | reflexivity].
Qed.

(** The returned stop is a fixed point: called again with the same
    arguments and its own result as the previous stop, the engine
    returns that very stop. *)
Theorem compute_trailing_stop_fixed_point
    (s : string) (entry peak : Q) (cfg : TrailingStopConfig) (previous : option Q) :
  exists v,
    compute_trailing_stop s entry peak cfg previous = Ok v
    /\ compute_trailing_stop s entry peak cfg (Some v) = Ok v.
Proof.
  destruct (is_long s) eqn:Hs.
  - apply is_long_true in Hs. subst s. rewrite compute_trailing_stop_long.
    eexists. split; [reflexivity |].
    rewrite compute_trailing_stop_long. f_equal.
    destruct previous as [c |]; [apply py_max_absorb | apply py_max_same].
  - rewrite (compute_trailing_stop_other s _ _ _ _ Hs).
    eexists. split; [reflexivity |].
    rewrite (compute_trailing_stop_other s _ _ _ _ Hs). f_equal.
    destruct previous as [c |]; [apply py_min_absorb | apply py_min_same].
Qed.

(** The gap to the peak is [step_roi]: with no previous stop, a positive
    entry price, a non-negative [stop_loss_roi] and a peak that has
    reached both [start_roi] and [step_roi], the ROI of the returned
    stop is [peak_roi - step_roi]. *)
Theorem compute_trailing_stop_gap
    (s : string) (entry peak : Q) (cfg : TrailingStopConfig) :
  0 < entry ->
  0 <= stop_loss_roi cfg ->
  start_roi cfg <= peak ->
  step_roi cfg <= peak ->
  exists v roi,
    compute_trailing_stop s entry peak cfg None = Ok v
    /\ price_to_roi s entry v LEVERAGE = Ok roi
    /\ roi == peak - step_roi cfg.
Proof.
  intros He Hsl Hstart Hstep.
  assert (Hm : py_max 0 (peak - step_roi cfg) == peak - step_roi cfg)
    by (rewrite py_max_Qmax; apply Q.max_r; lra).
  assert (Hact : Qleb (start_roi cfg) peak = true) by (apply Qleb_le; exact Hstart).
  assert (Hscale : 0 <= entry * ((stop_loss_roi cfg + (peak - step_roi cfg))
                                 * (1 # 10000)))
    by (apply Qmult_le_0_compat; [lra |]; apply Qmult_le_0_compat; lra).
  assert (Hne : ~ entry == 0) by lra.
  destruct (is_long s) eqn:Hs.
  - apply is_long_true in Hs. subst s. rewrite compute_trailing_stop_long.
    cbv zeta. rewrite Hact.
    eexists. eexists. split; [reflexivity |].
    rewrite (price_to_roi_ok "long" entry _ LEVERAGE He).
    split; [reflexivity |]. change (is_long "long") with true. cbv iota.
    set (cap := entry * (1 + - stop_loss_roi cfg / inject_Z LEVERAGE / 100)).
    set (trail := entry * (1 + py_max 0 (peak - step_roi cfg)
                                 / inject_Z LEVERAGE / 100)).
    assert (Ht : trail == entry * (1 + (peak - step_roi cfg) * (1 # 10000)))
      by (unfold trail; rewrite LEVERAGE_scale, Hm; reflexivity).
    assert (Hc : cap == entry * (1 - stop_loss_roi cfg * (1 # 10000)))
      by (unfold cap; rewrite LEVERAGE_scale; ring).
    assert (Hv : py_max cap trail == trail)
      by (rewrite py_max_Qmax; apply Q.max_r; lra).
    rewrite Hv, Ht. change (inject_Z LEVERAGE) with 100. field. exact Hne.
  - rewrite (compute_trailing_stop_other s _ _ _ _ Hs).
    cbv zeta. rewrite Hact.
    eexists. eexists. split; [reflexivity |].
    rewrite (price_to_roi_ok s entry _ LEVERAGE He), Hs.
    split; [reflexivity |].
    set (cap := entry * (1 - - stop_loss_roi cfg / inject_Z LEVERAGE / 100)).
    set (trail := entry * (1 - py_max 0 (peak - step_roi cfg)
                                 / inject_Z LEVERAGE / 100)).
    assert (Ht : trail == entry * (1 - (peak - step_roi cfg) * (1 # 10000)))
      by (unfold trail; rewrite LEVERAGE_scale, Hm; reflexivity).
    assert (Hc : cap == entry * (1 + stop_loss_roi cfg * (1 # 10000)))
      by (unfold cap; rewrite LEVERAGE_scale; ring).
    assert (Hv : py_min cap trail == trail)
      by (rewrite py_min_Qmin; apply Q.min_r; lra).
    rewrite Hv, Ht. change (inject_Z LEVERAGE) with 100. field. exact Hne.
Qed.

Lemma compute_trailing_stop_gap_witness :
  exists v roi,
    compute_trailing_stop "short" 2000 26 TrailingStopConfig_default None = Ok v
    /\ price_to_roi "short" 2000 v LEVERAGE = Ok roi
    /\ roi == 26 - 8.
Proof.
  apply (compute_trailing_stop_gap "short" 2000 26 TrailingStopConfig_default);
    [reflexivity | discriminate | discriminate | discriminate].
Defined.

(** ** Position sizer: what a returned size satisfies *)

Lemma determine_position_size_inv (balance entry percent : Q) (leverage : Z)
    (multiplier : Q) (sz : Z) :
  determine_position_size balance entry percent leverage multiplier = Ok sz ->
  0 < balance
  /\ ~ entry * multiplier == 0
  /\ sz = Z.max 1 (Qfloor (balance * (percent / 100) * inject_Z leverage
                           / (entry * multiplier))).
Proof.
  unfold determine_position_size.
  case_Qleb balance 0; [discriminate |].
  unfold py_div. case_Qeqb (entry * multiplier) 0; [discriminate |].
  cbn [bind]. rewrite py_max_Z. intros H. injection H as <-.
  repeat split; assumption.
Qed.

(** What a returned size tells, over doubles: it is at least one
    contract; the balance was not [<= 0], the leverage converted to a
    double, [entry_price * multiplier] was not zero and the double
    quotient [((balance * (risk / 100)) * leverage)
    / (entry_price * multiplier)] is finite; the size is [max(1, floor q)]
    for the number [q] that double stands for, so a size of two or more
    (where the one-contract minimum did not apply) is the integer part
    of the quotient and does not exceed it. *)
Theorem determine_position_size_returns
    (balance entry percent : PrimFloat.float) (leverage : Z)
    (multiplier : PrimFloat.float) (sz : Z) :
  Binary64.determine_position_size balance entry percent leverage multiplier = Ok sz ->
  (1 <= sz)%Z
  /\ PrimFloat.leb balance 0 = false
  /\ PrimFloat.eqb (entry * multiplier) 0 = false
  /\ exists (lev : PrimFloat.float) (q : Q),
       Binary64.float_of_int leverage = Ok lev
       /\ Binary64.exact (balance * (percent / 100) * lev / (entry * multiplier))
          = Some q
       /\ sz = Z.max 1 (Qfloor q)
       /\ ((2 <= sz)%Z -> inject_Z sz <= q /\ q < inject_Z sz + 1).
Proof.
  unfold Binary64.determine_position_size.
  destruct (PrimFloat.leb balance 0); [discriminate |].
  destruct (Binary64.float_of_int leverage) as [lev |]; [| discriminate].
  rewrite bind_Ok. unfold Binary64.py_div.
  destruct (PrimFloat.eqb (entry * multiplier) 0); [discriminate |].
  rewrite bind_Ok. unfold Binary64.math_floor.
  destruct (Binary64.exact _) as [q |] eqn:Hq;
    [| destruct (Binary64.isnan _); discriminate].
  rewrite bind_Ok, py_max_Z. intros H. injection H as <-.
  split; [lia |]. split; [reflexivity |]. split; [reflexivity |].
  exists lev, q. split; [reflexivity |]. split; [exact Hq |].
  split; [reflexivity |]. intros Hsz.
  assert (Hfloor : Z.max 1 (Qfloor q) = Qfloor q) by lia.
  rewrite Hfloor. split; [apply Qfloor_le |].
  pose proof (Qlt_floor q) as Hlt. rewrite inject_Z_plus in Hlt. exact Hlt.
Qed.

Lemma determine_position_size_returns_witness :
  (1 <= 2)%Z
  /\ exists q,
       Binary64.exact (5000 * (1 / 100) * 100 / (2000 * 1)) = Some q
       /\ inject_Z 2 <= q /\ q < inject_Z 2 + 1.
Proof.
  destruct (determine_position_size_returns 5000 2000 1 100 1 2)
    as [H1 [_ [_ [lev [q [Hlev [Hq [_ Hle]]]]]]]]; [vm_compute; reflexivity |].
  split; [exact H1 |]. exists q.
  injection Hlev as <-. split; [exact Hq |]. apply Hle. lia.
Defined.

(** More balance never buys fewer contracts: with a non-negative risk
    percent and leverage and a positive contract value, the size grows
    (weakly) with the balance. *)
Theorem determine_position_size_monotone (balance1 balance2 entry percent : Q)
    (leverage : Z) (multiplier : Q) (sz1 sz2 : Z) :
  balance1 <= balance2 ->
  0 <= percent -> (0 <= leverage)%Z -> 0 < entry * multiplier ->
  determine_position_size balance1 entry percent leverage multiplier = Ok sz1 ->
  determine_position_size balance2 entry percent leverage multiplier = Ok sz2 ->
  (sz1 <= sz2)%Z.
Proof.
  intros Hb Hp Hl Hpos H1 H2.
  apply determine_position_size_inv in H1 as [_ [_ ->]].
  apply determine_position_size_inv in H2 as [_ [_ ->]].
  apply Z.max_le_compat_l, Qfloor_resp_le.
  assert (HL : 0 <= inject_Z leverage)
    by (change 0 with (inject_Z 0); rewrite <- Zle_Qle; exact Hl).
  assert (Hk : 0 <= percent / 100 * inject_Z leverage)
    by (apply Qmult_le_0_compat; [| exact HL];
        apply Qle_shift_div_l; [reflexivity | lra]).
  assert (Hinv : 0 <= / (entry * multiplier))
    by (apply Qlt_le_weak, Qinv_lt_0_compat; exact Hpos).
  unfold Qdiv at 1 3. apply Qmult_le_compat_r; [| exact Hinv].
  rewrite <- !Qmult_assoc. 
  setoid_replace (balance1 * (percent * / 100 * inject_Z leverage))
    with ((percent / 100 * inject_Z leverage) * balance1) by (unfold Qdiv; ring).
  setoid_replace (balance2 * (percent * / 100 * inject_Z leverage))
    with ((percent / 100 * inject_Z leverage) * balance2) by (unfold Qdiv; ring).
  rewrite !(Qmult_comm (percent / 100 * inject_Z leverage)).
  apply Qmult_le_compat_r; assumption.
Qed.

Lemma determine_position_size_monotone_witness : (2 <= 5)%Z.
Proof.
  apply (determine_position_size_monotone 5000 10000 2000 1 100 1 2 5);
    [discriminate | discriminate | lia | reflexivity | reflexivity | reflexivity].
Defined.

(** ** Configuration checks *)






(** ** Clamp and the normaliser on undefined data *)

(** [clamp] with ordered finite bounds always returns a number within
    the bounds; a value inside the bounds is returned as it is, and NaN
    is turned into the upper bound (every comparison with NaN being
    false, [min(high, nan)] keeps [high]). *)
Theorem clamp_within_bounds (value : float) (lo hi : Q) :
  lo <= hi ->
  (exists v, clamp value (Some lo) (Some hi) = Some v /\ lo <= v <= hi)
  /\ (forall x, value = Some x -> lo < x < hi ->
                clamp value (Some lo) (Some hi) = Some x)
  /\ (value = NaN ->
      exists v, clamp value (Some lo) (Some hi) = Some v /\ v == hi).
Proof.
  intros Hb. unfold clamp, py_max, py_min; cbn [py_lt PyOrd_float].
  split; [| split].
  - destruct value as [x |]; cbn [flt].
    + case_Qltb x hi; cbn [flt].
      * case_Qltb lo x; eexists; (split; [reflexivity | lra]).
      * case_Qltb lo hi; eexists; (split; [reflexivity | lra]).
    + case_Qltb lo hi; eexists; (split; [reflexivity | lra]).
  - intros x -> [Hlo Hhi]. cbn [flt].
    apply Qltb_lt in Hhi. rewrite Hhi. cbn [flt].
    apply Qltb_lt in Hlo. now rewrite Hlo.
  - intros ->. unfold NaN. cbn [flt].
    case_Qltb lo hi; eexists; (split; [reflexivity | lra]).
Qed.

Lemma clamp_within_bounds_witness :
  (exists v, clamp (Some 250) (Some 0) (Some 100) = Some v /\ 0 <= v <= 100)
  /\ clamp (Some 50) (Some 0) (Some 100) = Some 50
  /\ (exists v, clamp NaN (Some 0) (Some 100) = Some v /\ v == 100).
Proof.
  split; [| split].
  - apply (proj1 (clamp_within_bounds (Some 250) 0 100 ltac:(discriminate))).
  - apply (proj1 (proj2 (clamp_within_bounds (Some 50) 0 100 ltac:(discriminate)))
             50 eq_refl).
    split; reflexivity.
  - apply (proj2 (proj2 (clamp_within_bounds NaN 0 100 ltac:(discriminate)))).
    reflexivity.
Defined.

Lemma skipna_reduce_all_nan (f : Q -> Q -> Q) (w : series) :
  Forall (fun c => c = NaN) w -> skipna_reduce f w = NaN.
Proof.
  unfold skipna_reduce. induction 1 as [| c w Hc _ IH]; [reflexivity |].
  subst c. exact IH.
Qed.

(** Undefined data scores as full strength: on a non-empty series whose
    trailing window holds no valid cell (a lookback of 0, or a window of
    NaN only, such as a Bollinger width with fewer than 20 bars behind
    it) [normalize_series] returns 100; and so it does when the latest
    value is NaN and the window is not flat. *)
Theorem normalize_series_undefined (s : series) (lookback : Z) :
  s <> [] ->
  (Forall (fun c => c = NaN) (tail s lookback) ->
   normalize_series s lookback = Ok (Some 100))
  /\ (last s NaN = NaN ->
      isclose (smin (tail s lookback)) (smax (tail s lookback)) = false ->
      normalize_series s lookback = Ok (Some 100)).
Proof.
  intros Hs. unfold normalize_series.
  destruct s as [| c s']; [congruence |]. cbn [empty].
  rewrite (iloc_last (c :: s') Hs). split.
  - intros Hw. unfold smin, smax. rewrite !(skipna_reduce_all_nan _ _ Hw).
    cbn [isclose isclose_with bind].
    destruct (last (c :: s') NaN); reflexivity.
  - intros Hlast Hfar. rewrite Hfar, Hlast. cbn [bind].
    destruct (smin (tail (c :: s') lookback)), (smax (tail (c :: s') lookback));
      reflexivity.
Qed.

Lemma normalize_series_undefined_witness :
  normalize_series [Some 1; Some 2; Some 3] 0 = Ok (Some 100)
  /\ normalize_series [NaN; NaN] 200 = Ok (Some 100)
  /\ normalize_series [Some 1; Some 3; NaN] 3 = Ok (Some 100).
Proof.
  split; [| split].
  - apply (proj1 (normalize_series_undefined [Some 1; Some 2; Some 3] 0
                    ltac:(discriminate))).
    constructor.
  - apply (proj1 (normalize_series_undefined [NaN; NaN] 200 ltac:(discriminate))).
    repeat constructor.
  - apply (proj2 (normalize_series_undefined [Some 1; Some 3; NaN] 3
                    ltac:(discriminate))); reflexivity.
Defined.

(** ** RSI: shape and range of the result *)

Lemma length_rolling_apply (agg : nat -> series -> float) (window : Z)
    (min_periods : option Z) (s r : series) :
  rolling_apply agg window min_periods s = Ok r -> List.length r = List.length s.
Proof.
  intros H. destruct (rolling_apply_inv _ _ _ _ _ H) as [p [_ ->]].
  now rewrite length_map, length_seq.
Qed.

Lemma rolling_apply_negative (agg : nat -> series -> float) (window : Z) (s : series) :
  (window < 0)%Z ->
  rolling_apply agg window (Some window) s
  = Raise (ValueError "min_periods must be >= 0").
Proof.
  intros H. unfold rolling_apply, rolling_validate.
  apply Z.ltb_lt in H. now rewrite H.
Qed.

Lemma rolling_apply_nonnegative (agg : nat -> series -> float) (window : Z) (s : series) :
  (0 <= window)%Z ->
  exists r, rolling_apply agg window (Some window) s = Ok r.
Proof.
  intros H. destruct (rolling_validate_window window H) as [_ Hv].
  rewrite (rolling_apply_ok agg window (Some window) s _ Hv). eexists; reflexivity.
Qed.

Lemma rsi_rs_nonneg (s : series) (length : Z) (avg_gain avg_loss : series) :
  rsi_avg_gain s length = Ok avg_gain ->
  rsi_avg_loss s length = Ok avg_loss ->
  Forall cell_nonneg (align fdiv avg_gain (replace_zero_nan avg_loss)).
Proof.
  intros Hgain Hloss.
  pose proof (rolling_mean_nonneg _ _ _ _ Hgain (rsi_gain_nonneg s)) as Ngain.
  pose proof (rolling_mean_nonneg _ _ _ _ Hloss (rsi_loss_nonneg s)) as Nloss.
  apply (Forall_align cell_nonneg cell_pos cell_nonneg);
    [exact I | exact I | apply fdiv_nonneg | exact Ngain
    | apply replace_zero_nan_pos; exact Nloss].
Qed.

Lemma rsi_cell_range (c : float) :
  cell_nonneg c ->
  cell_between 0 100
    (match fsub (Some 100) (fdiv (Some 100) (fadd (Some 1) c)) with
     | Some _ => fsub (Some 100) (fdiv (Some 100) (fadd (Some 1) c))
     | None => Some 50
     end).
Proof.
  destruct c as [r |]; cbn [cell_nonneg fadd fsub fdiv flift2].
  - intros Hr. case_Qeqb (1 + r) 0; [lra |].
    eexists. split; [reflexivity |].
    assert (Hpos : 0 < 1 + r) by lra.
    assert (H0 : 0 <= 100 / (1 + r))
      by (apply Qle_shift_div_l; [exact Hpos | lra]).
    assert (H1 : 100 / (1 + r) <= 100)
      by (apply Qle_shift_div_r; [exact Hpos |];
          assert (0 <= 100 * r) by (apply Qmult_le_0_compat; lra); lra).
    lra.
  - intros _. exists 50. split; [reflexivity | lra].
Qed.

(** [ta_rsi] rejects a negative window length with pandas' [ValueError]
    and accepts every other one; the series it returns has one row per
    input row, and every row is a number between 0 and 100, never NaN,
    whatever the input holds. *)
Theorem ta_rsi_shape_and_range (s : series) (length : Z) :
  ((length < 0)%Z ->
   ta_rsi s length = Raise (ValueError "min_periods must be >= 0"))
  /\ ((0 <= length)%Z ->
      exists rsi,
        ta_rsi s length = Ok rsi
        /\ List.length rsi = List.length s
        /\ Forall (cell_between 0 100) rsi).
Proof.
  split.
  - intros Hneg. unfold ta_rsi, rsi_avg_gain, rolling_mean.
    now rewrite (rolling_apply_negative _ _ _ Hneg).
  - intros Hpos.
    destruct (rolling_apply_nonnegative window_mean length (rsi_gain s) Hpos)
      as [avg_gain Hgain].
    destruct (rolling_apply_nonnegative window_mean length (rsi_loss s) Hpos)
      as [avg_loss Hloss].
    pose proof (rsi_rs_nonneg s length avg_gain avg_loss Hgain Hloss) as Hrs.
    pose proof (length_rolling_apply _ _ _ _ _ Hgain) as Lgain.
    pose proof (length_rolling_apply _ _ _ _ _ Hloss) as Lloss.
    rewrite length_rsi_gain in Lgain. rewrite length_rsi_loss in Lloss.
    unfold ta_rsi, rsi_avg_gain, rsi_avg_loss, rolling_mean.
    rewrite Hgain, Hloss. cbn [bind].
    eexists. split; [reflexivity |]. split.
    + unfold fillna, replace_zero_nan.
      rewrite !length_map, length_align, length_map. lia.
    + unfold fillna. rewrite map_map. apply Forall_map.
      eapply Forall_impl; [| exact Hrs].
      intros c Hc. apply rsi_cell_range. exact Hc.
Qed.

Lemma ta_rsi_shape_and_range_witness :
  ta_rsi [Some 3; Some 2; Some 4; Some 1] (-1)
  = Raise (ValueError "min_periods must be >= 0")
  /\ exists rsi,
       ta_rsi [Some 3; NaN; Some 4; Some 1] 2 = Ok rsi
       /\ List.length rsi = 4%nat
       /\ Forall (cell_between 0 100) rsi.
Proof.
  split.
  - apply (proj1 (ta_rsi_shape_and_range [Some 3; Some 2; Some 4; Some 1] (-1))).
    reflexivity.
  - apply (proj2 (ta_rsi_shape_and_range [Some 3; NaN; Some 4; Some 1] 2)).
    discriminate.
Defined.

(** ** ATR: no gaps once the window fits *)

Lemma Forall_valid_map_Some (l : list Q) : Forall cell_valid (map Some l).
Proof.
  apply Forall_map, Forall_forall. intros v _. now exists v.
Qed.

Lemma align_flift2_valid (f : Q -> Q -> Q) (a b : series) :
  Forall cell_valid a -> Forall cell_valid b -> List.length a = List.length b ->
  Forall cell_valid (align (flift2 f) a b).
Proof.
  intros Ha. revert b. induction Ha as [| x a [vx ->] Ha IH]; intros b Hb Hlen.
  - destruct b; [constructor | discriminate].
  - destruct b as [| y b]; [discriminate |].
    inversion Hb as [| ? ? [vy ->] Hb']; subst.
    simpl. constructor; [now eexists | apply IH; [assumption | simpl in Hlen; lia]].
Qed.

Lemma row_max_valid (a b : series) :
  Forall cell_valid a -> (List.length b <= List.length a)%nat ->
  Forall cell_valid (row_max a b).
Proof.
  unfold row_max. intros Ha. revert b.
  induction Ha as [| x a [vx ->] Ha IH]; intros b Hlen.
  - destruct b; [constructor | simpl in Hlen; lia].
  - destruct b as [| y b].
    + cbn [align]. apply Forall_map. constructor; [now eexists |].
      eapply Forall_impl; [| exact Ha]. intros c [v ->]. now eexists.
    + simpl. constructor.
      * destruct y; now eexists.
      * apply IH. simpl in Hlen. lia.
Qed.

Lemma valid_cells_all_valid (w : series) :
  Forall cell_valid w -> List.length (valid_cells w) = List.length w.
Proof.
  induction 1 as [| c w [v ->] _ IH]; [reflexivity |]. simpl. now rewrite IH.
Qed.

Lemma window_mean_full (window i : nat) (s : series) :
  Forall cell_valid s ->
  (1 <= window)%nat -> (window <= S i)%nat -> (i < List.length s)%nat ->
  cell_valid (window_mean window (rolling_window window i s)).
Proof.
  intros Hs Hw Hi Hn. unfold window_mean.
  assert (Hvalid : Forall cell_valid (rolling_window window i s))
    by (unfold rolling_window; now apply Forall_skipn, Forall_firstn).
  rewrite (valid_cells_all_valid _ Hvalid).
  assert (Hlen : List.length (rolling_window window i s) = window)
    by (unfold rolling_window; rewrite length_skipn, length_firstn; lia).
  rewrite Hlen.
  assert (H1 : (window <=? window)%nat = true) by (apply Nat.leb_le; lia).
  assert (H2 : (0 <? window)%nat = true) by (apply Nat.ltb_lt; lia).
  rewrite H1, H2. now eexists.
Qed.

Lemma bfill_all_valid (s : series) : Forall cell_valid s -> bfill s = s.
Proof.
  induction 1 as [| c s [v ->] _ IH]; [reflexivity |]. simpl. now rewrite IH.
Qed.

Lemma length_bfill (s : series) : List.length (bfill s) = List.length s.
Proof.
  induction s as [| [v |] s IH]; simpl; now rewrite ?IH.
Qed.

(** Back-filling a series that ends in a non-empty run of valid cells
    leaves no NaN. *)
Lemma bfill_valid_suffix (pre post : series) :
  Forall cell_valid post -> post <> [] -> Forall cell_valid (bfill (pre ++ post)).
Proof.
  intros Hpost Hne. induction pre as [| c pre IH].
  - simpl. now rewrite (bfill_all_valid post Hpost).
  - simpl. destruct c as [v |].
    + constructor; [now eexists | exact IH].
    + constructor; [| exact IH].
      destruct (bfill (pre ++ post)) as [| h t] eqn:E.
      * apply (f_equal (@List.length _)) in E.
        rewrite length_bfill, length_app in E. destruct post; [congruence |].
        simpl in E. lia.
      * inversion IH; assumption.
Qed.

(** On bars without NaN, all columns of one length, and a window between
    1 and that length, [ta_atr] returns one defined value per bar: the
    rows before the first full window are back-filled, so the series has
    no gap. *)
Theorem ta_atr_no_gaps (highs lows closes : list Q) (length : Z) :
  List.length highs = List.length closes ->
  List.length lows = List.length closes ->
  (1 <= length <= Z.of_nat (List.length closes))%Z ->
  exists atr,
    ta_atr (map Some highs) (map Some lows) (map Some closes) length = Ok atr
    /\ List.length atr = List.length closes
    /\ Forall cell_valid atr.
Proof.
  intros Hh Hl Hw. unfold ta_atr.
  set (n := List.length closes) in *.
  set (tr := row_max _ _).
  assert (Hshift : List.length (shift1 (map Some closes)) = n)
    by (rewrite length_shift1, length_map; reflexivity).
  assert (Hbase : Forall cell_valid (align fsub (map Some highs) (map Some lows)))
    by (apply align_flift2_valid;
        [apply Forall_valid_map_Some | apply Forall_valid_map_Some
        | rewrite !length_map; lia]).
  assert (Lbase : List.length (align fsub (map Some highs) (map Some lows)) = n)
    by (rewrite length_align, !length_map; lia).
  assert (Htr : Forall cell_valid tr /\ List.length tr = n).
  { unfold tr. split.
    - apply row_max_valid; [apply row_max_valid; [exact Hbase |] |].
      + unfold sabs. rewrite length_map, length_align, length_map, Hshift. lia.
      + unfold row_max, sabs.
        rewrite length_map, !length_align, !length_map, length_align,
          !length_map, Hshift. lia.
    - unfold row_max, sabs.
      rewrite !length_align, !length_map, !length_align, !length_map, Hshift. lia. }
  destruct Htr as [Vtr Ltr].
  destruct (rolling_validate_window length) as [_ Hv]; [lia |].
  unfold rolling_mean.
  rewrite (rolling_apply_ok window_mean length (Some length) tr _ Hv).
  cbn [bind fst snd]. eexists. split; [reflexivity |].
  split; [rewrite length_bfill, length_map, length_seq; exact Ltr |].
  rewrite Ltr.
  replace n with ((Z.to_nat length - 1) + (n - (Z.to_nat length - 1)))%nat by lia.
  rewrite seq_app, map_app.
  apply bfill_valid_suffix.
  - apply Forall_map, Forall_forall. intros i Hi. apply in_seq in Hi.
    apply window_mean_full; [exact Vtr | lia | lia | lia].
  - intros Hnil. apply (f_equal (@List.length _)) in Hnil.
    rewrite length_map, length_seq in Hnil. simpl in Hnil. lia.
Qed.

Lemma ta_atr_no_gaps_witness :
  exists atr,
    ta_atr (map Some [3; 2; 4; 1]) (map Some [1; 1; 2; 0]) (map Some [2; 2; 3; 1]) 2
    = Ok atr
    /\ List.length atr = 4%nat
    /\ Forall cell_valid atr.
Proof.
  apply (ta_atr_no_gaps [3; 2; 4; 1] [1; 1; 2; 0] [2; 2; 3; 1] 2);
    [reflexivity | reflexivity | simpl; lia].
Defined.

(** ** Signal scorer: it always answers, and what a fired side means *)

Lemma normalize_series_returns (s : series) (lookback : Z) :
  exists v, normalize_series s lookback = Ok (Some v) /\ 0 <= v <= 100.
Proof.
  unfold normalize_series.
  destruct s as [| c s']; [exists 0; split; [reflexivity | lra] |]. cbn [empty].
  destruct (isclose _ _); [exists 0; split; [reflexivity | lra] |].
  rewrite iloc_last by discriminate. cbn [bind].
  match goal with
  | |- context [py_min (Some 100) ?x] => destruct (clamp_0_100 x) as [v [Hv Hr]]
  end.
  exists v. split; [now rewrite Hv | exact Hr].
Qed.

Lemma iloc_second_last (s : series) :
  (2 <= List.length s)%nat ->
  iloc s (-2) = Ok (nth (List.length s - 2) s NaN).
Proof.
  intros Hlen. unfold iloc.
  change (-2 <? 0)%Z with true. cbv iota.
  assert (Hb : ((0 <=? Z.of_nat (List.length s) + -2)%Z
                && (Z.of_nat (List.length s) + -2 <? Z.of_nat (List.length s))%Z)%bool
               = true).
  { apply andb_true_intro. split; [apply Z.leb_le | apply Z.ltb_lt]; lia. }
  rewrite Hb. f_equal. f_equal. lia.
Qed.

Lemma flt_true (a b : float) :
  flt a b = true -> exists x y, a = Some x /\ b = Some y /\ x < y.
Proof.
  destruct a as [x |], b as [y |]; cbn [flt]; try discriminate.
  intros H. apply Qltb_lt in H. now exists x, y.
Qed.

Lemma fle_true (a b : float) :
  fle a b = true -> exists x y, a = Some x /\ b = Some y /\ x <= y.
Proof.
  destruct a as [x |], b as [y |]; cbn [fle]; try discriminate.
  intros H. apply Qleb_le in H. now exists x, y.
Qed.

(** Run [determine_signal] past its length check and its four calls of
    the normaliser, naming their results. *)
Ltac run_determine_signal ind inputs Hlen :=
  unfold determine_signal;
  let Hb := fresh "Hb" in
  assert (Hb : (List.length (ind_delta_series ind) <? 2)%nat = false)
    by (apply Nat.ltb_ge; exact Hlen);
  rewrite Hb; clear Hb;
  rewrite (iloc_second_last _ Hlen), bind_Ok; cbv beta;
  let mag := fresh "mag" in let Hmag := fresh "Hmag" in
  let pos := fresh "pos" in let Hpos := fresh "Hpos" in
  let neg := fresh "neg" in let Hneg := fresh "Hneg" in
  let bb := fresh "bb" in let Hbb := fresh "Hbb" in
  let E := fresh "E" in
  destruct (normalize_series_returns (sabs (ind_delta_series ind))
              (normalization_lookback inputs)) as [mag [E Hmag]];
  rewrite E, bind_Ok; clear E; cbv beta;
  destruct (normalize_series_returns (clip_lower 0 (diff (ind_delta_series ind)))
              (normalization_lookback inputs)) as [pos [E Hpos]];
  rewrite E, bind_Ok; clear E; cbv beta;
  destruct (normalize_series_returns
              (sneg (clip_upper 0 (diff (ind_delta_series ind))))
              (normalization_lookback inputs)) as [neg [E Hneg]];
  rewrite E, bind_Ok; clear E; cbv beta;
  destruct (normalize_series_returns (ind_bb_width_series ind)
              (normalization_lookback inputs)) as [bb [E Hbb]];
  rewrite E, bind_Ok; clear E; cbv beta zeta.

(** [determine_signal] never raises: whatever the snapshot and the
    inputs hold (NaN included), it returns a side that is none, long or
    short, together with a score dictionary. *)
Theorem determine_signal_total (indicators : Indicators) (inputs : StrategyInputs) :
  exists side scores,
    determine_signal indicators inputs = Ok (side, scores)
    /\ (side = None \/ side = Some "long"%string \/ side = Some "short"%string).
Proof.
  destruct (Nat.lt_ge_cases (List.length (ind_delta_series indicators)) 2)
    as [Hshort | Hlen].
  - unfold determine_signal. apply Nat.ltb_lt in Hshort. rewrite Hshort.
    eexists. eexists. split; [reflexivity | now left].
  - run_determine_signal indicators inputs Hlen.
    eexists. eexists. split; [reflexivity |].
    match goal with
    | |- context [if ?a then Some "long"%string else _] => destruct a
    end; [right; now left |].
    match goal with
    | |- context [if ?a then Some "short"%string else _] => destruct a
    end; [right; now right | now left].
Qed.

Lemma determine_signal_short_series (indicators : Indicators) (inputs : StrategyInputs)
    (side : option string) (scores : dict) :
  determine_signal indicators inputs = Ok (side, scores) ->
  side <> None ->
  (2 <= List.length (ind_delta_series indicators))%nat.
Proof.
  intros H Hside.
  destruct (Nat.lt_ge_cases (List.length (ind_delta_series indicators)) 2)
    as [Hshort | Hlen]; [| exact Hlen].
  unfold determine_signal in H. apply Nat.ltb_lt in Hshort.
  rewrite Hshort in H. injection H as <- _. congruence.
Qed.

Lemma Ok_pair_inj {A B : Type} (a a' : A) (b b' : B) :
  Ok (a, b) = Ok (a', b') -> a = a' /\ b = b'.
Proof. intros H. injection H as -> ->. now split. Qed.

(** Take a conjunction of booleans apart. *)
Ltac split_andb H :=
  repeat match type of H with
         | (_ && _)%bool = true =>
             let H1 := fresh H in
             apply andb_prop in H as [H H1]
         end.

(** What a long signal means: [determine_signal] answers long only when
    the previous delta was at or below zero and the current one is
    positive and above [macd_delta_min], the Bollinger width is above
    [bb_min_expansion], the enabled filters pass, and the long score
    reported in the dictionary reaches the threshold of the tier. *)
Theorem determine_signal_long_means (indicators : Indicators) (inputs : StrategyInputs)
    (scores : dict) :
  determine_signal indicators inputs = Ok (Some "long"%string, scores) ->
  exists prev delta width score,
    iloc (ind_delta_series indicators) (-2) = Ok (Some prev)
    /\ ind_macd_delta indicators = Some delta
    /\ ind_bb_width indicators = Some width
    /\ prev <= 0 /\ 0 < delta /\ macd_delta_min inputs < delta
    /\ bb_min_expansion inputs < width
    /\ (use_trend_filter inputs = true ->
        flt (ind_slow_ema indicators) (ind_fast_ema indicators) = true)
    /\ (use_volume_filter inputs = true ->
        flt (ind_vol_ma indicators) (ind_volume indicators) = true)
    /\ dict_get scores "score_long" = Some (PyFloat (Some score))
    /\ thresholds_get (strength_threshold inputs) <= score.
Proof.
  intros H.
  pose proof (determine_signal_short_series _ _ _ _ H ltac:(discriminate)) as Hlen.
  rewrite (iloc_second_last _ Hlen).
  revert H. run_determine_signal indicators inputs Hlen. intros H.
  apply Ok_pair_inj in H as [Hside Hscores].
  match type of Hside with
  | (if ?a then _ else _) = _ => destruct a eqn:Hfire
  end.
  2:{ match type of Hside with
      | (if ?a then _ else _) = _ => destruct a; discriminate Hside
      end. }
  clear Hside. split_andb Hfire.
  apply fle_true in Hfire as [p [z [Hp [Hz Hpz]]]]. injection Hz as <-.
  apply flt_true in Hfire5 as [z [d [Hz [Hd Hzd]]]]. injection Hz as <-.
  apply flt_true in Hfire4 as [m [d' [Hm [Hd' Hmd]]]]. injection Hm as <-.
  apply flt_true in Hfire3 as [e [w [He [Hw Hew]]]]. injection He as <-.
  apply fle_true in Hfire0 as [r [sc [Hr [Hsc Hrsc]]]]. injection Hr as <-.
  rewrite Hd in Hd'. injection Hd' as <-.
  exists p, d, w, sc.
  split; [now rewrite Hp |]. split; [exact Hd |]. split; [exact Hw |].
  split; [exact Hpz |]. split; [exact Hzd |]. split; [exact Hmd |].
  split; [exact Hew |].
  split; [intros Ht; rewrite Ht in Hfire2; exact Hfire2 |].
  split; [intros Hv; rewrite Hv in Hfire1; exact Hfire1 |].
  split; [| exact Hrsc].
  rewrite <- Hscores. cbn [dict_get String.eqb Ascii.eqb Bool.eqb]. now rewrite Hsc.
Qed.

Lemma determine_signal_long_means_witness :
  exists prev delta width score,
    iloc (ind_delta_series Indicators_crossing_up) (-2) = Ok (Some prev)
    /\ ind_macd_delta Indicators_crossing_up = Some delta
    /\ ind_bb_width Indicators_crossing_up = Some width
    /\ prev <= 0 /\ 0 < delta /\ macd_delta_min StrategyInputs_relaxed < delta
    /\ bb_min_expansion StrategyInputs_relaxed < width
    /\ thresholds_get (strength_threshold StrategyInputs_relaxed) <= score.
Proof.
  edestruct (determine_signal_long_means Indicators_crossing_up StrategyInputs_relaxed)
    as [prev [delta [width [score [H1 [H2 [H3 [H4 [H5 [H6 [H7 [_ [_ [_ H8]]]]]]]]]]]]]];
    [vm_compute; reflexivity |].
  exists prev, delta, width, score. repeat split; assumption.
Defined.


(** What a short signal means, symmetrically: the previous delta was at
    or above zero, the current one is negative and below
    [-macd_delta_min], the Bollinger width is above [bb_min_expansion],
    the enabled filters pass (fast EMA below slow EMA), and the short
    score reported in the dictionary reaches the threshold. *)
Theorem determine_signal_short_means (indicators : Indicators) (inputs : StrategyInputs)
    (scores : dict) :
  determine_signal indicators inputs = Ok (Some "short"%string, scores) ->
  exists prev delta width score,
    iloc (ind_delta_series indicators) (-2) = Ok (Some prev)
    /\ ind_macd_delta indicators = Some delta
    /\ ind_bb_width indicators = Some width
    /\ 0 <= prev /\ delta < 0 /\ delta < - macd_delta_min inputs
    /\ bb_min_expansion inputs < width
    /\ (use_trend_filter inputs = true ->
        flt (ind_fast_ema indicators) (ind_slow_ema indicators) = true)
    /\ (use_volume_filter inputs = true ->
        flt (ind_vol_ma indicators) (ind_volume indicators) = true)
    /\ dict_get scores "score_short" = Some (PyFloat (Some score))
    /\ thresholds_get (strength_threshold inputs) <= score.
Proof.
  intros H.
  pose proof (determine_signal_short_series _ _ _ _ H ltac:(discriminate)) as Hlen.
  rewrite (iloc_second_last _ Hlen).
  revert H. run_determine_signal indicators inputs Hlen. intros H.
  apply Ok_pair_inj in H as [Hside Hscores].
  match type of Hside with
  | (if ?a then _ else _) = _ => destruct a; [discriminate Hside |]
  end.
  match type of Hside with
  | (if ?a then _ else _) = _ => destruct a eqn:Hfire; [| discriminate Hside]
  end.
  clear Hside. split_andb Hfire.
  apply fle_true in Hfire as [z [p [Hz [Hp Hzp]]]]. injection Hz as <-.
  apply flt_true in Hfire5 as [d [z [Hd [Hz Hdz]]]]. injection Hz as <-.
  apply flt_true in Hfire4 as [d' [m [Hd' [Hm Hdm]]]]. injection Hm as <-.
  apply flt_true in Hfire3 as [e [w [He [Hw Hew]]]]. injection He as <-.
  apply fle_true in Hfire0 as [r [sc [Hr [Hsc Hrsc]]]]. injection Hr as <-.
  rewrite Hd in Hd'. injection Hd' as <-.
  exists p, d, w, sc.
  split; [now rewrite Hp |]. split; [exact Hd |]. split; [exact Hw |].
  split; [exact Hzp |]. split; [exact Hdz |]. split; [exact Hdm |].
  split; [exact Hew |].
  split; [intros Ht; rewrite Ht in Hfire2; exact Hfire2 |].
  split; [intros Hv; rewrite Hv in Hfire1; exact Hfire1 |].
  split; [| exact Hrsc].
  rewrite <- Hscores. cbn [dict_get String.eqb Ascii.eqb Bool.eqb]. now rewrite Hsc.
Qed.

Lemma determine_signal_short_means_witness :
  exists prev delta width score,
    iloc (ind_delta_series Indicators_crossing_down) (-2) = Ok (Some prev)
    /\ ind_macd_delta Indicators_crossing_down = Some delta
    /\ 0 <= prev /\ delta < 0
    /\ bb_min_expansion StrategyInputs_relaxed < width
    /\ thresholds_get (strength_threshold StrategyInputs_relaxed) <= score.
Proof.
  edestruct (determine_signal_short_means Indicators_crossing_down
               StrategyInputs_relaxed)
    as [prev [delta [width [score [H1 [H2 [H3 [H4 [H5 [H6 [H7 [_ [_ [_ H8]]]]]]]]]]]]]];
    [vm_compute; reflexivity |].
  exists prev, delta, width, score. repeat split; assumption.
Defined.

(** Undefined inputs give no signal: when the current MACD delta, the
    previous delta or the Bollinger width is NaN, every comparison the
    base conditions make is false and the side is none. *)
Theorem determine_signal_nan_gives_none (indicators : Indicators)
    (inputs : StrategyInputs) :
  ind_macd_delta indicators = NaN
  \/ ind_bb_width indicators = NaN
  \/ iloc (ind_delta_series indicators) (-2) = Ok NaN ->
  exists scores, determine_signal indicators inputs = Ok (None, scores).
Proof.
  intros Hnan.
  destruct (Nat.lt_ge_cases (List.length (ind_delta_series indicators)) 2)
    as [Hshort | Hlen].
  - unfold determine_signal. apply Nat.ltb_lt in Hshort. rewrite Hshort.
    eexists; reflexivity.
  - rewrite (iloc_second_last _ Hlen) in Hnan.
    run_determine_signal indicators inputs Hlen.
    eexists. f_equal. f_equal.
    destruct Hnan as [Hn | [Hn | Hn]]; [| | injection Hn as Hn]; rewrite Hn;
      unfold NaN; cbn [flt fle];
      repeat (rewrite ?andb_false_r; cbn [andb]); reflexivity.
Qed.

Lemma determine_signal_nan_gives_none_witness :
  exists scores,
    determine_signal
      {| ind_close := Some 2000; ind_fast_ema := Some 2001; ind_slow_ema := Some 2000;
         ind_macd_delta := Some 0.02; ind_macd_slope := Some 0.03;
         ind_bb_width := NaN;
         ind_rsi := Some 50; ind_atr := NaN; ind_atr_percent := NaN;
         ind_bb_upper := NaN; ind_bb_lower := NaN; ind_vol_ma := NaN;
         ind_volume := Some 1200; ind_macd_line := Some 0.05;
         ind_macd_signal := Some 0.03;
         ind_delta_series := [Some (-0.01); Some 0.02];
         ind_bb_width_series := [NaN; NaN];
         ind_rsi_series := [Some 50; Some 50] |}
      StrategyInputs_relaxed
    = Ok (None, scores).
Proof.
  apply determine_signal_nan_gives_none. right. left. reflexivity.
Defined.

Lemma weighted_bound (w x : Q) : 0 <= w -> 0 <= x <= 100 -> 0 <= w * x <= 100 * w.
Proof.
  intros Hw [H0 H1]. split; [apply Qmult_le_0_compat; assumption |].
  rewrite (Qmult_comm 100 w). apply Qmult_le_compat_nonneg; lra.
Qed.

(** The composite scores stay in range: once two deltas are there and
    the three weights are non-negative, both scores of the dictionary
    are numbers (never NaN, even for an undefined RSI) between 0 and 100
    times the sum of the weights, hence between 0 and 100 for weights
    that sum to 1. *)
Theorem determine_signal_scores_bounded (indicators : Indicators)
    (inputs : StrategyInputs) (side : option string) (scores : dict) :
  0 <= weight_macd inputs -> 0 <= weight_bb inputs -> 0 <= weight_rsi inputs ->
  (2 <= List.length (ind_delta_series indicators))%nat ->
  determine_signal indicators inputs = Ok (side, scores) ->
  exists score_long score_short,
    dict_get scores "score_long" = Some (PyFloat (Some score_long))
    /\ dict_get scores "score_short" = Some (PyFloat (Some score_short))
    /\ 0 <= score_long
          <= 100 * (weight_macd inputs + weight_bb inputs + weight_rsi inputs)
    /\ 0 <= score_short
          <= 100 * (weight_macd inputs + weight_bb inputs + weight_rsi inputs).
Proof.
  intros Wm Wb Wr Hlen H.
  revert H. run_determine_signal indicators inputs Hlen. intros H.
  apply Ok_pair_inj in H as [_ Hscores]. rewrite <- Hscores. clear Hscores.
  unfold clamp.
  destruct (clamp_0_100 (fdiv (fmul (Some 100) (fsub (Some 70) (ind_rsi indicators)))
                              (Some 40))) as [rl [-> Hrl]].
  destruct (clamp_0_100 (fdiv (fmul (Some 100) (fsub (ind_rsi indicators) (Some 30)))
                              (Some 40))) as [rs [-> Hrs]].
  cbn [dict_get String.eqb Ascii.eqb Bool.eqb fadd fmul flift2].
  eexists. eexists. split; [reflexivity |]. split; [reflexivity |].
  assert (Hml : 0 <= 0.7 * mag + 0.3 * pos <= 100) by lra.
  assert (Hms : 0 <= 0.7 * mag + 0.3 * neg <= 100) by lra.
  pose proof (weighted_bound _ _ Wm Hml) as B1.
  pose proof (weighted_bound _ _ Wm Hms) as B2.
  pose proof (weighted_bound _ _ Wb Hbb) as B3.
  pose proof (weighted_bound _ _ Wr Hrl) as B4.
  pose proof (weighted_bound _ _ Wr Hrs) as B5.
  split; lra.
Qed.

Lemma determine_signal_scores_bounded_witness :
  exists score_long score_short,
    0 <= score_long
      <= 100 * (weight_macd StrategyInputs_relaxed + weight_bb StrategyInputs_relaxed
                + weight_rsi StrategyInputs_relaxed)
    /\ 0 <= score_short
          <= 100 * (weight_macd StrategyInputs_relaxed + weight_bb StrategyInputs_relaxed
                    + weight_rsi StrategyInputs_relaxed).
Proof.
  edestruct (determine_signal_scores_bounded Indicators_crossing_up
               StrategyInputs_relaxed)
    as [sl [ss [_ [_ [Hl Hs]]]]];
    [discriminate | discriminate | discriminate | simpl; lia
    | vm_compute; reflexivity |].
  exists sl, ss. split; assumption.
Defined.

(** An unrecognised tier name is the Medium tier: with any
    [strength_threshold] other than ["Weak"] and ["Strong"] the scorer
    answers exactly as it does with ["Medium"], and no error is raised
    for the unknown name. *)
Theorem determine_signal_unknown_tier (indicators : Indicators)
    (inputs : StrategyInputs) (tier : string) :
  tier <> "Weak"%string -> tier <> "Strong"%string ->
  determine_signal indicators (with_strength_threshold inputs tier)
  = determine_signal indicators (with_strength_threshold inputs "Medium").
Proof.
  intros Hw Hs.
  assert (Ht : thresholds_get tier = thresholds_get "Medium").
  { unfold thresholds_get.
    apply String.eqb_neq in Hw. apply String.eqb_neq in Hs. rewrite Hw, Hs.
    destruct (String.eqb tier "Medium"); reflexivity. }
  unfold determine_signal, with_strength_threshold.
  cbn [strength_threshold normalization_lookback macd_delta_min bb_min_expansion
       use_trend_filter use_volume_filter weight_macd weight_bb weight_rsi].
  rewrite Ht. reflexivity.
Qed.

Lemma determine_signal_unknown_tier_witness :
  determine_signal Indicators_crossing_up
    (with_strength_threshold StrategyInputs_relaxed "medium")
  = determine_signal Indicators_crossing_up
      (with_strength_threshold StrategyInputs_relaxed "Medium").
Proof.
  apply determine_signal_unknown_tier; discriminate.
Defined.

(** ** Plan builder: when a plan is produced *)

Lemma pct_to_price_f64_LEVERAGE (s : string) (entry roi : PrimFloat.float) :
  Binary64.pct_to_price s entry roi LEVERAGE
  = Ok (if is_long s
        then (entry * (1 + roi / 100 / 100))%float
        else (entry * (1 - roi / 100 / 100))%float).
Proof. reflexivity. Qed.

Lemma compute_trailing_stop_f64_returns (s : string) (entry peak : PrimFloat.float)
    (cfg : Binary64.TrailingStopConfig) (previous : option PrimFloat.float) :
  exists v, Binary64.compute_trailing_stop s entry peak cfg previous = Ok v.
Proof.
  unfold Binary64.compute_trailing_stop.
  rewrite pct_to_price_f64_LEVERAGE, bind_Ok.
  destruct (PrimFloat.leb _ _).
  - rewrite pct_to_price_f64_LEVERAGE, !bind_Ok.
    destruct previous; eexists; reflexivity.
  - rewrite bind_Ok. destruct previous; eexists; reflexivity.
Qed.

(** Every way [build_trade_plan] can end, over doubles.  With [quotient]
    the double [((balance * (risk / 100)) * 100) / (entry_price * 1.0)]
    the sizer forms: a balance [<= 0] (the value the caller falls back
    to when the balance cannot be fetched) raises the sizer's
    [ValueError]; any other balance with [entry_price * 1.0] equal to
    zero raises [ZeroDivisionError]; otherwise a quotient that is not
    finite makes [math.floor] raise, [ValueError] for a NaN and
    [OverflowError] for an infinity; and a finite quotient gives a plan
    for the given side and entry price, with peak ROI 0, the given
    timestamp and [max(1, floor quotient)] contracts, at least one. *)
Theorem build_trade_plan_outcomes
    (s : string) (entry : PrimFloat.float) (indicators : Indicators)
    (inputs : Binary64.StrategyInputs) (trailing : Binary64.TrailingStopConfig)
    (balance percent : PrimFloat.float) (now_ms : Z) :
  let run :=
    Binary64.build_trade_plan s entry indicators inputs trailing
      balance percent now_ms in
  let divisor := (entry * Binary64.CONTRACT_MULTIPLIER)%float in
  let quotient := (balance * (percent / 100) * 100 / divisor)%float in
  (PrimFloat.leb balance 0 = true ->
   run = Raise (ValueError "Account balance must be positive to size a position"))
  /\ (PrimFloat.leb balance 0 = false -> PrimFloat.eqb divisor 0 = true ->
      run = Raise ZeroDivisionError)
  /\ (PrimFloat.leb balance 0 = false -> PrimFloat.eqb divisor 0 = false ->
      Binary64.exact quotient = None ->
      run = Raise (if Binary64.isnan quotient
                   then ValueError "cannot convert float NaN to integer"
                   else OverflowError))
  /\ (PrimFloat.leb balance 0 = false -> PrimFloat.eqb divisor 0 = false ->
      forall q : Q,
        Binary64.exact quotient = Some q ->
        exists plan,
          run = Ok plan
          /\ Binary64.side plan = s
          /\ Binary64.entry_price plan = entry
          /\ Binary64.peak_roi plan = 0%float
          /\ Binary64.timestamp_ms plan = now_ms
          /\ Binary64.size plan = Z.max 1 (Qfloor q)
          /\ (1 <= Binary64.size plan)%Z).
Proof.
  cbv zeta. unfold Binary64.build_trade_plan.
  rewrite pct_to_price_f64_LEVERAGE, bind_Ok.
  destruct (compute_trailing_stop_f64_returns s entry 0 trailing
              (Some (if is_long s
                     then (entry * (1 + - Binary64.stop_loss_roi trailing / 100 / 100))%float
                     else (entry * (1 - - Binary64.stop_loss_roi trailing / 100 / 100))%float)))
    as [ts Hts].
  rewrite Hts, bind_Ok, pct_to_price_f64_LEVERAGE, bind_Ok.
  unfold Binary64.determine_position_size.
  change (Binary64.float_of_int LEVERAGE) with (Ok 100%float).
  unfold Binary64.py_div, Binary64.math_floor.
  split; [| split; [| split]].
  - intros Hb. now rewrite Hb.
  - intros Hb Hd. now rewrite Hb, bind_Ok, Hd.
  - intros Hb Hd Hq. rewrite Hb, bind_Ok, Hd, bind_Ok, Hq.
    now destruct (Binary64.isnan _).
  - intros Hb Hd q Hq. rewrite Hb, bind_Ok, Hd, bind_Ok, Hq, !bind_Ok.
    eexists. split; [reflexivity |]. cbn.
    rewrite py_max_Z. repeat split. lia.
Qed.

Lemma build_trade_plan_outcomes_witness :
  Binary64.build_trade_plan "long" 2000 Indicators_crossing_up
    Binary64.StrategyInputs_default Binary64.TrailingStopConfig_default
    0 1 1700000000000
  = Raise (ValueError "Account balance must be positive to size a position")
  /\ Binary64.build_trade_plan "long" 0 Indicators_crossing_up
       Binary64.StrategyInputs_default Binary64.TrailingStopConfig_default
       5000 1 1700000000000
     = Raise ZeroDivisionError
  /\ Binary64.build_trade_plan "long" 2000 Indicators_crossing_up
       Binary64.StrategyInputs_default Binary64.TrailingStopConfig_default
       0x1p1023 100 1700000000000
     = Raise OverflowError
  /\ exists plan,
       Binary64.build_trade_plan "short" 2000 Indicators_crossing_down
         Binary64.StrategyInputs_default Binary64.TrailingStopConfig_default
         5000 1 1700000000000 = Ok plan
       /\ Binary64.size plan = 2%Z.
Proof.
  split; [| split; [| split]].
  - apply (proj1 (build_trade_plan_outcomes "long" 2000 Indicators_crossing_up
                    Binary64.StrategyInputs_default
                    Binary64.TrailingStopConfig_default 0 1 1700000000000)).
    reflexivity.
  - apply (proj1 (proj2 (build_trade_plan_outcomes "long" 0 Indicators_crossing_up
                           Binary64.StrategyInputs_default
                           Binary64.TrailingStopConfig_default 5000 1
                           1700000000000))); reflexivity.
  - apply (proj1 (proj2 (proj2 (build_trade_plan_outcomes "long" 2000
                                  Indicators_crossing_up
                                  Binary64.StrategyInputs_default
                                  Binary64.TrailingStopConfig_default
                                  0x1p1023 100 1700000000000)))); reflexivity.
  - edestruct (proj2 (proj2 (proj2 (build_trade_plan_outcomes "short" 2000
                                      Indicators_crossing_down
                                      Binary64.StrategyInputs_default
                                      Binary64.TrailingStopConfig_default 5000 1
                                      1700000000000))))
      as [plan [Hplan [_ [_ [_ [_ [Hsize _]]]]]]];
      [reflexivity | reflexivity | vm_compute; reflexivity |].
    exists plan. split; [exact Hplan | exact Hsize].
Defined.

(* ================================================================== *)
(** * The exponential average and the snapshot *)

Lemma ewm_alpha_range (span : Z) :
  (1 <= span)%Z -> 0 < ewm_alpha span /\ ewm_alpha span <= 1.
Proof.
  intros Hs. unfold ewm_alpha.
  assert (H1 : 1 <= inject_Z span)
    by (change 1 with (inject_Z 1); rewrite <- Zle_Qle; exact Hs).
  assert (Hd : 1 <= 1 + (inject_Z span - 1) / 2).
  { assert (0 <= (inject_Z span - 1) / 2)
      by (apply Qle_shift_div_l; [reflexivity | lra]).
    lra. }
  split.
  - apply Qlt_shift_div_l; lra.
  - apply Qle_shift_div_r; lra.
Qed.

Lemma ewm_mean_ok (s : series) (span : Z) :
  (1 <= span)%Z ->
  ewm_mean s span
  = Ok match s with
       | [] => []
       | first :: rest =>
           let st := {| ewm_weighted := first; ewm_old_wt := 1;
                        ewm_nobs := is_observation first |} in
           ewm_output st :: ewm_run (ewm_alpha span) st rest
       end.
Proof.
  intros Hs. unfold ewm_mean.
  assert (H : (span <? 1)%Z = false) by (apply Z.ltb_ge; lia).
  now rewrite H.
Qed.

Lemma length_ewm_run (alpha : Q) (st : ewm_state) (vals : series) :
  List.length (ewm_run alpha st vals) = List.length vals.
Proof.
  revert st. induction vals as [| c vals IH]; intros st; [reflexivity |].
  simpl. now rewrite IH.
Qed.

Lemma length_ewm_mean (s out : series) (span : Z) :
  ewm_mean s span = Ok out -> List.length out = List.length s.
Proof.
  unfold ewm_mean. destruct (span <? 1)%Z; [discriminate |].
  intros H. injection H as <-.
  destruct s as [| c s]; [reflexivity |]. simpl. now rewrite length_ewm_run.
Qed.

(** On numbers the loop is the textbook recurrence. *)
Lemma ewm_run_recurrence (alpha : Q) (xs : list Q) (w y ow : Q) (k : nat) :
  w == y -> ow == 1 ->
  exists out,
    ewm_run alpha {| ewm_weighted := Some w; ewm_old_wt := ow; ewm_nobs := S k |}
      (map Some xs)
    = map Some out
    /\ Forall2 Qeq out (ema_recurrence alpha y xs).
Proof.
  revert w y ow k. induction xs as [| x xs IH]; intros w y ow k Hw How.
  - exists []. split; [reflexivity | constructor].
  - cbn [map ewm_run ewm_step ewm_weighted ewm_old_wt ewm_nobs is_observation
         ema_recurrence].
    set (w' := if Qeqb w x
               then w
               else (ow * (1 - alpha) * w + alpha * x) / (ow * (1 - alpha) + alpha)).
    assert (Hw' : w' == (1 - alpha) * y + alpha * x).
    { unfold w'. case_Qeqb w x.
      - rewrite <- Hw, <- E. ring.
      - rewrite How, <- Hw. field. lra. }
    replace (k + 1)%nat with (S k) by lia.
    destruct (IH w' ((1 - alpha) * y + alpha * x) 1 (S k) Hw' (Qeq_refl 1))
      as [out [Hout Hrec]].
    replace (S k + 1)%nat with (S (S k)) by lia.
    exists (w' :: out). split.
    + cbn [map]. f_equal. 
      replace (S k + 1)%nat with (S (S k)) in * by lia. exact Hout.
    + constructor; assumption.
Qed.

(** [ewm(span, adjust=False).mean()] is the exponential average the
    strategy describes: for a span of at least 1 and a series of numbers
    it returns one number per row, the first being the first value and
    each next one [(1 - alpha) * previous + alpha * value] with
    [alpha = 2 / (span + 1)]; a span below 1 raises [ValueError]. *)
Theorem ewm_mean_recurrence (x : Q) (xs : list Q) (span : Z) :
  ((span < 1)%Z ->
   ewm_mean (map Some (x :: xs)) span
   = Raise (ValueError "span must satisfy: span >= 1"))
  /\ ((1 <= span)%Z ->
      ewm_alpha span == 2 / (inject_Z span + 1)
      /\ exists out,
           ewm_mean (map Some (x :: xs)) span = Ok (map Some (x :: out))
           /\ Forall2 Qeq out (ema_recurrence (ewm_alpha span) x xs)).
Proof.
  split.
  - intros Hs. unfold ewm_mean. apply Z.ltb_lt in Hs. now rewrite Hs.
  - intros Hs. split.
    + unfold ewm_alpha.
      assert (H1 : 1 <= inject_Z span)
        by (change 1 with (inject_Z 1); rewrite <- Zle_Qle; exact Hs).
      field. lra.
    + rewrite (ewm_mean_ok _ span Hs). cbn [map is_observation].
      destruct (ewm_run_recurrence (ewm_alpha span) xs x x 1 0
                  (Qeq_refl x) (Qeq_refl 1)) as [out [Hout Hrec]].
      exists out. split; [| exact Hrec].
      cbv zeta. rewrite Hout. reflexivity.
Qed.

Lemma ewm_mean_recurrence_witness :
  exists out,
    ewm_mean (map Some [1; 2; 3]) 3 = Ok (map Some (1 :: out))
    /\ Forall2 Qeq out (ema_recurrence (ewm_alpha 3) 1 [2; 3]).
Proof.
  apply (proj2 (ewm_mean_recurrence 1 [2; 3] 3)). lia.
Defined.

Lemma convex_within (a b w c lo hi : Q) :
  0 <= a -> 0 < b -> lo <= w <= hi -> lo <= c <= hi ->
  lo <= (a * w + b * c) / (a + b) <= hi.
Proof.
  intros Ha Hb [Hw1 Hw2] [Hc1 Hc2].
  assert (P1 : 0 <= a * (w - lo)) by (apply Qmult_le_0_compat; lra).
  assert (P2 : 0 <= a * (hi - w)) by (apply Qmult_le_0_compat; lra).
  assert (P3 : 0 <= b * (c - lo)) by (apply Qmult_le_0_compat; lra).
  assert (P4 : 0 <= b * (hi - c)) by (apply Qmult_le_0_compat; lra).
  split.
  - apply Qle_shift_div_l; lra.
  - apply Qle_shift_div_r; lra.
Qed.

Lemma ewm_step_within (alpha lo hi : Q) (st : ewm_state) (cur : float) :
  0 < alpha -> alpha <= 1 ->
  cell_within lo hi (ewm_weighted st) -> 0 <= ewm_old_wt st ->
  cell_within lo hi cur ->
  cell_within lo hi (ewm_weighted (ewm_step alpha st cur))
  /\ 0 <= ewm_old_wt (ewm_step alpha st cur).
Proof.
  intros Ha0 Ha1 Hw How Hc. unfold ewm_step.
  destruct (ewm_weighted st) as [w |], cur as [c |];
    cbn [ewm_weighted ewm_old_wt cell_within] in *.
  - split; [| lra].
    case_Qeqb w c; [exact Hw |].
    apply convex_within; [apply Qmult_le_0_compat; lra | lra | exact Hw | exact Hc].
  - split; [exact Hw | apply Qmult_le_0_compat; lra].
  - split; [exact Hc | exact How].
  - split; [exact I | exact How].
Qed.

Lemma ewm_output_within (lo hi : Q) (st : ewm_state) :
  cell_within lo hi (ewm_weighted st) -> cell_within lo hi (ewm_output st).
Proof.
  intros H. unfold ewm_output. destruct (1 <=? ewm_nobs st)%nat; [exact H | exact I].
Qed.

Lemma ewm_run_within (alpha lo hi : Q) (vals : series) (st : ewm_state) :
  0 < alpha -> alpha <= 1 ->
  cell_within lo hi (ewm_weighted st) -> 0 <= ewm_old_wt st ->
  Forall (cell_within lo hi) vals ->
  Forall (cell_within lo hi) (ewm_run alpha st vals).
Proof.
  intros Ha0 Ha1. revert st.
  induction vals as [| c vals IH]; intros st Hw How Hvals; [constructor |].
  inversion Hvals as [| ? ? Hc Hrest]; subst.
  destruct (ewm_step_within alpha lo hi st c Ha0 Ha1 Hw How Hc) as [Hw' How'].
  cbn [ewm_run]. constructor.
  - apply ewm_output_within. exact Hw'.
  - apply IH; assumption.
Qed.

(** The exponential average never leaves the range of its input: when
    every valid cell of the series lies between [lo] and [hi], so does
    every valid cell of the average, NaN rows or not; and the average
    has one row per input row. *)
Theorem ewm_mean_within_range (s out : series) (span : Z) (lo hi : Q) :
  ewm_mean s span = Ok out ->
  Forall (cell_within lo hi) s ->
  List.length out = List.length s /\ Forall (cell_within lo hi) out.
Proof.
  intros Hout Hs. split; [exact (length_ewm_mean _ _ _ Hout) |].
  unfold ewm_mean in Hout.
  destruct (Z.ltb_spec span 1) as [| Hspan]; [discriminate |].
  injection Hout as <-.
  destruct (ewm_alpha_range span Hspan) as [Ha0 Ha1].
  destruct s as [| c s]; [constructor |].
  inversion Hs as [| ? ? Hc Hrest]; subst. cbv zeta. constructor.
  - apply ewm_output_within. exact Hc.
  - apply ewm_run_within; cbn [ewm_weighted ewm_old_wt]; try assumption. lra.
Qed.

Lemma ewm_mean_within_range_witness :
  Forall (cell_within 1 3) [Some 1; Some 1; Some (7168 # 3072)].
Proof.
  apply (ewm_mean_within_range [Some 1; NaN; Some 3] _ 3 1 3 eq_refl).
  repeat constructor; simpl; lra.
Defined.

Lemma ewm_run_constant (alpha : Q) (c : Q) (n k : nat) (ow : Q) :
  ewm_run alpha {| ewm_weighted := Some c; ewm_old_wt := ow; ewm_nobs := S k |}
    (repeat (Some c) n)
  = repeat (Some c) n.
Proof.
  revert k ow. induction n as [| n IH]; intros k ow; [reflexivity |].
  cbn [repeat ewm_run ewm_step ewm_weighted ewm_old_wt ewm_nobs is_observation].
  assert (Hcc : Qeqb c c = true) by (apply Qeqb_eq; reflexivity).
  rewrite Hcc. replace (S k + 1)%nat with (S (S k)) by lia.
  rewrite IH. reflexivity.
Qed.

Lemma ewm_mean_constant (c : Q) (n : nat) (span : Z) :
  (1 <= span)%Z ->
  ewm_mean (repeat (Some c) n) span = Ok (repeat (Some c) n).
Proof.
  intros Hs. rewrite (ewm_mean_ok _ span Hs). f_equal.
  destruct n as [| n]; [reflexivity |].
  cbn [repeat is_observation]. cbv zeta. now rewrite ewm_run_constant.
Qed.

(** ** [compute_indicators] *)

Lemma iloc_last_len (s : series) :
  (0 < List.length s)%nat -> iloc s (-1) = Ok (last s NaN).
Proof.
  intros H. apply iloc_last. intros ->. simpl in H. lia.
Qed.

Lemma iloc_empty (i : Z) : iloc [] i = Raise IndexError.
Proof.
  unfold iloc. cbn [List.length Z.of_nat].
  destruct (i <? 0)%Z eqn:Hi.
  - assert (H : (0 <=? 0 + i)%Z = false) by (apply Z.leb_gt; apply Z.ltb_lt in Hi; lia).
    now rewrite H.
  - assert (H : (i <? 0)%Z = false) by exact Hi.
    rewrite H, andb_false_r. reflexivity.
Qed.

Lemma ta_rsi_ok (s : series) (length : Z) :
  (0 <= length)%Z ->
  exists r, ta_rsi s length = Ok r /\ List.length r = List.length s.
Proof.
  intros Hpos.
  destruct (rolling_apply_nonnegative window_mean length (rsi_gain s) Hpos)
    as [avg_gain Hgain].
  destruct (rolling_apply_nonnegative window_mean length (rsi_loss s) Hpos)
    as [avg_loss Hloss].
  pose proof (length_rolling_apply _ _ _ _ _ Hgain) as Lgain.
  pose proof (length_rolling_apply _ _ _ _ _ Hloss) as Lloss.
  rewrite length_rsi_gain in Lgain. rewrite length_rsi_loss in Lloss.
  unfold ta_rsi, rsi_avg_gain, rsi_avg_loss, rolling_mean.
  rewrite Hgain, Hloss. cbn [bind].
  eexists. split; [reflexivity |].
  unfold fillna, replace_zero_nan.
  rewrite !length_map, length_align, length_map. lia.
Qed.

Lemma ta_atr_ok (highs lows closes : series) (length : Z) :
  (0 <= length)%Z ->
  exists r,
    ta_atr highs lows closes length = Ok r
    /\ List.length r
       = Nat.max (List.length highs) (Nat.max (List.length lows) (List.length closes)).
Proof.
  intros Hpos. unfold ta_atr. set (tr := row_max _ _).
  assert (Hlen : List.length tr
                 = Nat.max (List.length highs)
                     (Nat.max (List.length lows) (List.length closes))).
  { unfold tr, row_max, sabs.
    rewrite !length_align, !length_map, !length_align, length_shift1. lia. }
  destruct (rolling_apply_nonnegative window_mean length tr Hpos) as [r Hr].
  unfold rolling_mean. rewrite Hr. cbn [bind].
  eexists. split; [reflexivity |].
  rewrite length_bfill, (length_rolling_apply _ _ _ _ _ Hr). exact Hlen.
Qed.

Lemma rolling_apply_default_ok (agg : nat -> series -> float) (window : Z) (s : series) :
  (0 <= window)%Z ->
  exists r, rolling_apply agg window None s = Ok r /\ List.length r = List.length s.
Proof.
  intros H. destruct (rolling_validate_window window H) as [Hv _].
  rewrite (rolling_apply_ok agg window None s _ Hv).
  eexists. split; [reflexivity |]. now rewrite length_map, length_seq.
Qed.

Lemma bollinger_ok (fsqrt : Q -> Q) (closes : series) :
  exists upper lower width,
    bollinger fsqrt closes = Ok (upper, lower, width)
    /\ List.length upper = List.length closes
    /\ List.length lower = List.length closes
    /\ List.length width = List.length closes.
Proof.
  unfold bollinger, rolling_mean, rolling_std0.
  destruct (rolling_apply_default_ok window_mean 20 closes ltac:(lia))
    as [basis [-> Lb]].
  destruct (rolling_apply_default_ok (window_std0 fsqrt) 20 closes ltac:(lia))
    as [sd [-> Ls]].
  cbn [bind]. eexists. eexists. eexists. split; [reflexivity |].
  repeat rewrite ?length_map, ?length_align.
  repeat split; lia.
Qed.

Lemma ewm_mean_returns (s : series) (span : Z) :
  (1 <= span)%Z ->
  exists out, ewm_mean s span = Ok out /\ List.length out = List.length s.
Proof.
  intros Hs. rewrite (ewm_mean_ok s span Hs). eexists. split; [reflexivity |].
  destruct s as [| c s]; [reflexivity |]. cbv zeta. cbn [List.length].
  now rewrite length_ewm_run.
Qed.

(** Run the next [iloc(-1)] of [compute_indicators]. *)
Ltac run_iloc :=
  rewrite iloc_last_len by lia; rewrite bind_Ok; cbv beta.

(** On a frame with at least one bar and admissible lengths,
    [compute_indicators] returns a snapshot built from the three
    exponential averages. *)
Lemma compute_indicators_ok (fsqrt : Q -> Q) (df : list Bar) (inputs : StrategyInputs) :
  df <> [] ->
  (1 <= fast_length inputs)%Z -> (1 <= slow_length inputs)%Z ->
  (1 <= signal_length inputs)%Z -> (0 <= volume_ma_length inputs)%Z ->
  exists ind fast slow signal,
    ewm_mean (map bar_close df) (fast_length inputs) = Ok fast
    /\ ewm_mean (map bar_close df) (slow_length inputs) = Ok slow
    /\ ewm_mean (align fsub fast slow) (signal_length inputs) = Ok signal
    /\ compute_indicators fsqrt df inputs = Ok ind
    /\ ind_delta_series ind = align fsub (align fsub fast slow) signal
    /\ ind_macd_delta ind = last (ind_delta_series ind) NaN
    /\ ind_close ind = last (map bar_close df) NaN
    /\ ind_fast_ema ind = last fast NaN
    /\ ind_slow_ema ind = last slow NaN
    /\ List.length (ind_delta_series ind) = List.length df
    /\ List.length (ind_bb_width_series ind) = List.length df
    /\ List.length (ind_rsi_series ind) = List.length df.
Proof.
  intros Hdf Hf Hs Hg Hv.
  assert (Hn : (0 < List.length df)%nat) by (destruct df; [congruence | simpl; lia]).
  unfold compute_indicators.
  set (closes := map bar_close df).
  set (highs := map bar_high df).
  set (lows := map bar_low df).
  set (volumes := map bar_volume df).
  assert (Lc : List.length closes = List.length df) by apply length_map.
  assert (Lh : List.length highs = List.length df) by apply length_map.
  assert (Ll : List.length lows = List.length df) by apply length_map.
  assert (Lv : List.length volumes = List.length df) by apply length_map.
  destruct (ewm_mean_returns closes _ Hf) as [fast [Hfast Lfast]].
  destruct (ewm_mean_returns closes _ Hs) as [slow [Hslow Lslow]].
  rewrite Hfast, bind_Ok, Hslow, bind_Ok. cbv beta.
  set (macd_line := align fsub fast slow).
  assert (Lm : List.length macd_line = List.length df)
    by (unfold macd_line; rewrite length_align; lia).
  destruct (ewm_mean_returns macd_line _ Hg) as [signal [Hsignal Lsignal]].
  rewrite Hsignal, bind_Ok. cbv beta.
  set (delta := align fsub macd_line signal).
  assert (Ld : List.length delta = List.length df)
    by (unfold delta; rewrite length_align; lia).
  assert (Lslope : List.length (diff delta) = List.length df)
    by (rewrite length_diff; exact Ld).
  destruct (ta_rsi_ok closes 14 ltac:(lia)) as [rsi [Hrsi Lrsi]].
  rewrite Hrsi, bind_Ok. cbv beta.
  destruct (ta_atr_ok highs lows closes 14 ltac:(lia)) as [atr [Hatr Latr]].
  rewrite Hatr, bind_Ok. cbv beta.
  destruct (bollinger_ok fsqrt closes) as [upper [lower [width [Hb [Lu [Llo Lw]]]]]].
  rewrite Hb, bind_Ok. cbv beta. cbn [fst snd].
  destruct (rolling_apply_default_ok window_mean (volume_ma_length inputs) volumes Hv)
    as [vol_ma [Hvol Lvol]].
  unfold rolling_mean at 1. rewrite Hvol, bind_Ok. cbv beta.
  repeat run_iloc.
  destruct (truthy (last closes NaN));
    repeat (rewrite bind_Ok; cbv beta); repeat run_iloc;
    (eexists; exists fast, slow, signal;
     split; [reflexivity |]; split; [reflexivity |]; split; [exact Hsignal |];
     split; [reflexivity |];
     cbn [ind_delta_series ind_macd_delta ind_close ind_fast_ema ind_slow_ema
          ind_bb_width_series ind_rsi_series];
     repeat split; try reflexivity; lia).
Qed.

(** The outcomes of [compute_indicators], in the order the code meets
    them: a span below 1 raises the [ValueError] of the exponential
    average; with admissible spans a negative [volume_ma_length] raises
    the [ValueError] of the rolling window; with admissible lengths an
    empty frame raises [IndexError] at the first [iloc[-1]]; and every
    other frame yields a snapshot whose three series have one row per
    bar and whose [macd_delta] is the last row of the delta series. *)
Theorem compute_indicators_outcomes (fsqrt : Q -> Q) (df : list Bar)
    (inputs : StrategyInputs) :
  ((fast_length inputs < 1)%Z ->
   compute_indicators fsqrt df inputs
   = Raise (ValueError "span must satisfy: span >= 1"))
  /\ ((1 <= fast_length inputs)%Z -> (1 <= slow_length inputs)%Z ->
      (1 <= signal_length inputs)%Z -> (volume_ma_length inputs < 0)%Z ->
      compute_indicators fsqrt df inputs
      = Raise (ValueError "window must be an integer 0 or greater"))
  /\ ((1 <= fast_length inputs)%Z -> (1 <= slow_length inputs)%Z ->
      (1 <= signal_length inputs)%Z -> (0 <= volume_ma_length inputs)%Z ->
      df = [] ->
      compute_indicators fsqrt df inputs = Raise IndexError)
  /\ ((1 <= fast_length inputs)%Z -> (1 <= slow_length inputs)%Z ->
      (1 <= signal_length inputs)%Z -> (0 <= volume_ma_length inputs)%Z ->
      df <> [] ->
      exists ind,
        compute_indicators fsqrt df inputs = Ok ind
        /\ List.length (ind_delta_series ind) = List.length df
        /\ List.length (ind_bb_width_series ind) = List.length df
        /\ List.length (ind_rsi_series ind) = List.length df
        /\ ind_macd_delta ind = last (ind_delta_series ind) NaN).
Proof.
  split; [| split; [| split]].
  - intros Hf. unfold compute_indicators, ewm_mean.
    apply Z.ltb_lt in Hf. now rewrite Hf.
  - intros Hf Hs Hg Hv. unfold compute_indicators.
    destruct (ewm_mean_returns (map bar_close df) _ Hf) as [fast [-> _]].
    destruct (ewm_mean_returns (map bar_close df) _ Hs) as [slow [-> _]].
    rewrite !bind_Ok. cbv beta.
    destruct (ewm_mean_returns (align fsub fast slow) _ Hg) as [signal [-> _]].
    rewrite bind_Ok.
    destruct (ta_rsi_ok (map bar_close df) 14 ltac:(lia)) as [rsi [-> _]].
    rewrite bind_Ok.
    destruct (ta_atr_ok (map bar_high df) (map bar_low df) (map bar_close df) 14
                ltac:(lia)) as [atr [-> _]].
    rewrite bind_Ok.
    destruct (bollinger_ok fsqrt (map bar_close df)) as [u [l [w [-> _]]]].
    rewrite bind_Ok. cbv beta.
    unfold rolling_mean at 1, rolling_apply, rolling_validate.
    apply Z.ltb_lt in Hv. now rewrite Hv.
  - intros Hf Hs Hg Hv ->. unfold compute_indicators. cbn [map].
    destruct (ewm_mean_returns [] _ Hf) as [fast [-> _]].
    destruct (ewm_mean_returns [] _ Hs) as [slow [-> _]].
    rewrite !bind_Ok. cbv beta.
    destruct (ewm_mean_returns (align fsub fast slow) _ Hg) as [signal [-> _]].
    rewrite bind_Ok.
    destruct (ta_rsi_ok [] 14 ltac:(lia)) as [rsi [-> _]].
    rewrite bind_Ok.
    destruct (ta_atr_ok [] [] [] 14 ltac:(lia)) as [atr [-> _]].
    rewrite bind_Ok.
    destruct (bollinger_ok fsqrt []) as [u [l [w [-> _]]]].
    rewrite bind_Ok. cbv beta.
    destruct (rolling_apply_default_ok window_mean (volume_ma_length inputs) [] Hv)
      as [vol_ma [Hvol _]].
    unfold rolling_mean at 1. rewrite Hvol, bind_Ok. cbv beta.
    now rewrite iloc_empty.
  - intros Hf Hs Hg Hv Hdf.
    destruct (compute_indicators_ok fsqrt df inputs Hdf Hf Hs Hg Hv)
      as [ind [fast [slow [signal [_ [_ [_ [Hind [_ [Hlast [_ [_ [_ [L1 [L2 L3]]]]]]]]]]]]]]].
    exists ind. repeat split; assumption.
Qed.

Lemma compute_indicators_outcomes_witness :
  compute_indicators (fun x => x) [] StrategyInputs_default = Raise IndexError
  /\ exists ind,
       compute_indicators (fun x => x)
         [mkBar (Some 0) (Some 2000) (Some 2001) (Some 2002) (Some 1999) (Some 1200)]
         StrategyInputs_default = Ok ind
       /\ List.length (ind_delta_series ind) = 1%nat.
Proof.
  split.
  - apply (proj1 (proj2 (proj2 (compute_indicators_outcomes (fun x => x) []
                                  StrategyInputs_default))));
      (reflexivity || (simpl; lia)).
  - destruct (proj2 (proj2 (proj2 (compute_indicators_outcomes (fun x => x)
                [mkBar (Some 0) (Some 2000) (Some 2001) (Some 2002) (Some 1999)
                   (Some 1200)] StrategyInputs_default))))
      as [ind [Hind [Hlen _]]]; try (simpl; lia); [discriminate |].
    exists ind. split; [exact Hind | exact Hlen].
Defined.

(** End to end on a single bar: with admissible lengths, a frame of one
    bar yields a snapshot, and the scorer answers it with side none and
    the insufficiency reason. *)
Theorem single_bar_gives_no_signal (fsqrt : Q -> Q) (bar : Bar)
    (inputs : StrategyInputs) :
  (1 <= fast_length inputs)%Z -> (1 <= slow_length inputs)%Z ->
  (1 <= signal_length inputs)%Z -> (0 <= volume_ma_length inputs)%Z ->
  exists ind,
    compute_indicators fsqrt [bar] inputs = Ok ind
    /\ determine_signal ind inputs
       = Ok (None, [("reason"%string, PyStr "insufficient data for MACD crossover")]).
Proof.
  intros Hf Hs Hg Hv.
  destruct (compute_indicators_ok fsqrt [bar] inputs ltac:(discriminate) Hf Hs Hg Hv)
    as [ind [fast [slow [signal [_ [_ [_ [Hind [_ [_ [_ [_ [_ [Hlen _]]]]]]]]]]]]]].
  exists ind. split; [exact Hind |].
  unfold determine_signal. rewrite Hlen. reflexivity.
Qed.

Lemma single_bar_gives_no_signal_witness :
  exists ind,
    compute_indicators (fun x => x)
      [mkBar (Some 0) (Some 2000) (Some 2001) (Some 2002) (Some 1999) (Some 1200)]
      StrategyInputs_default = Ok ind
    /\ determine_signal ind StrategyInputs_default
       = Ok (None, [("reason"%string, PyStr "insufficient data for MACD crossover")]).
Proof.
  apply single_bar_gives_no_signal; simpl; lia.
Defined.

Lemma map_constant {A B : Type} (f : A -> B) (x : B) (l : list A) :
  Forall (fun a => f a = x) l -> map f l = repeat x (List.length l).
Proof.
  induction 1 as [| a l Ha _ IH]; [reflexivity |]. simpl. now rewrite Ha, IH.
Qed.

Lemma last_repeat (x : float) (n : nat) : (0 < n)%nat -> last (repeat x n) NaN = x.
Proof.
  intros Hn. destruct n as [| n]; [lia |]. clear Hn.
  induction n as [| n IH]; [reflexivity |].
  change (repeat x (S (S n))) with (x :: repeat x (S n)).
  change (last (x :: repeat x (S n)) NaN) with (last (repeat x (S n)) NaN).
  exact IH.
Qed.

(** A current delta of exactly zero crosses nothing. *)
Lemma determine_signal_zero_delta (indicators : Indicators) (inputs : StrategyInputs)
    (d : Q) :
  ind_macd_delta indicators = Some d -> d == 0 ->
  exists scores, determine_signal indicators inputs = Ok (None, scores).
Proof.
  intros Hd Hz.
  destruct (Nat.lt_ge_cases (List.length (ind_delta_series indicators)) 2)
    as [Hshort | Hlen].
  - unfold determine_signal. apply Nat.ltb_lt in Hshort. rewrite Hshort.
    eexists; reflexivity.
  - run_determine_signal indicators inputs Hlen.
    eexists. f_equal. f_equal. rewrite Hd. cbn [flt].
    assert (H1 : Qltb 0 d = false) by (apply Qltb_ge; lra).
    assert (H2 : Qltb d 0 = false) by (apply Qltb_ge; lra).
    rewrite H1, H2.
    repeat (rewrite ?andb_false_r; cbn [andb]). reflexivity.
Qed.

(** End to end on a flat market: when every bar closes at the same
    price, the exponential averages are that price, the MACD delta is
    zero on every row, and the scorer fires nothing, whatever the other
    columns, the filters and the weights are. *)
Theorem flat_market_gives_no_signal (fsqrt : Q -> Q) (df : list Bar)
    (inputs : StrategyInputs) (c : Q) :
  df <> [] ->
  Forall (fun b => bar_close b = Some c) df ->
  (1 <= fast_length inputs)%Z -> (1 <= slow_length inputs)%Z ->
  (1 <= signal_length inputs)%Z -> (0 <= volume_ma_length inputs)%Z ->
  exists ind d scores,
    compute_indicators fsqrt df inputs = Ok ind
    /\ ind_fast_ema ind = Some c /\ ind_slow_ema ind = Some c
    /\ ind_macd_delta ind = Some d /\ d == 0
    /\ determine_signal ind inputs = Ok (None, scores).
Proof.
  intros Hdf Hflat Hf Hs Hg Hv.
  assert (Hn : (0 < List.length df)%nat) by (destruct df; [congruence | simpl; lia]).
  destruct (compute_indicators_ok fsqrt df inputs Hdf Hf Hs Hg Hv)
    as [ind [fast [slow [signal
         [Hfast [Hslow [Hsignal [Hind [Hdelta [Hlast [_ [Hfe [Hse _]]]]]]]]]]]]].
  rewrite (map_constant bar_close (Some c) df Hflat) in Hfast, Hslow.
  rewrite ewm_mean_constant in Hfast by exact Hf. injection Hfast as <-.
  rewrite ewm_mean_constant in Hslow by exact Hs. injection Hslow as <-.
  rewrite align_repeat in Hsignal, Hdelta. cbn [fsub flift2] in Hsignal, Hdelta.
  rewrite ewm_mean_constant in Hsignal by exact Hg. injection Hsignal as <-.
  rewrite align_repeat in Hdelta. cbn [fsub flift2] in Hdelta.
  rewrite Hdelta, (last_repeat _ _ Hn) in Hlast.
  rewrite (last_repeat _ _ Hn) in Hfe, Hse.
  assert (Hz : c - c - (c - c) == 0) by ring.
  destruct (determine_signal_zero_delta ind inputs _ Hlast Hz) as [scores Hsig].
  exists ind, (c - c - (c - c)), scores.
  repeat split; assumption.
Qed.

Lemma flat_market_gives_no_signal_witness :
  exists ind d scores,
    compute_indicators (fun x => x)
      [mkBar (Some 0) (Some 2000) (Some 2000) (Some 2002) (Some 1999) (Some 1200);
       mkBar (Some 1) (Some 2000) (Some 2000) (Some 2005) (Some 1990) (Some 1500);
       mkBar (Some 2) (Some 2000) (Some 2000) (Some 2001) (Some 1998) (Some 900)]
      StrategyInputs_relaxed = Ok ind
    /\ ind_macd_delta ind = Some d /\ d == 0
    /\ determine_signal ind StrategyInputs_relaxed = Ok (None, scores).
Proof.
  edestruct (flat_market_gives_no_signal (fun x => x)
               [mkBar (Some 0) (Some 2000) (Some 2000) (Some 2002) (Some 1999) (Some 1200);
                mkBar (Some 1) (Some 2000) (Some 2000) (Some 2005) (Some 1990) (Some 1500);
                mkBar (Some 2) (Some 2000) (Some 2000) (Some 2001) (Some 1998) (Some 900)]
               StrategyInputs_relaxed 2000)
    as [ind [d [scores [Hind [_ [_ [Hd [Hz Hsig]]]]]]]];
    [discriminate | repeat constructor | simpl; lia | simpl; lia | simpl; lia
    | simpl; lia |].
  exists ind, d, scores. repeat split; assumption.
Defined.

(* ================================================================== *)
(** * Order submission *)

(** What [submit_orders] checks before it talks to the exchange: a dry
    run ([execute] false) makes no call and ends normally for every
    plan, whatever its side; a live run with a side other than ["long"]
    and ["short"] raises [KeyError] on that side before any call is
    made, so the side the helpers never validate is rejected here. *)
Theorem submit_orders_guards (str_int : Z -> string) (round2 : Q -> Q)
    (client : list client_call -> client_call -> option order_exn)
    (plan : TradePlan) :
  submit_orders str_int round2 client plan false = ([], None)
  /\ (side plan <> "long"%string -> side plan <> "short"%string ->
      submit_orders str_int round2 client plan true
      = ([], Some (KeyError (side plan))))
  /\ (side plan = "long"%string \/ side plan = "short"%string ->
      exists first rest outcome,
        submit_orders str_int round2 client plan true = (first :: rest, outcome)
        /\ is_stop_order first = false).
Proof.
  split; [reflexivity |]. split.
  - intros Hl Hs. unfold submit_orders, side_map_get. cbn [negb].
    apply String.eqb_neq in Hl. apply String.eqb_neq in Hs. now rewrite Hl, Hs.
  - intros Hside. unfold submit_orders, side_map_get, call_client. cbn [negb app].
    destruct Hside as [-> | ->]; cbn [String.eqb Ascii.eqb Bool.eqb];
      match goal with
      | |- context [client [] ?c] => destruct (client [] c)
      end;
      [eexists; eexists; eexists; split; reflexivity | | 
       eexists; eexists; eexists; split; reflexivity |];
      match goal with
      | |- context [client [?a] ?c] => destruct (client [a] c)
      end;
      try (eexists; eexists; eexists; split; reflexivity);
      match goal with
      | |- context [client [?a; ?b] ?c] => destruct (client [a; b] c)
      end;
      eexists; eexists; eexists; split; reflexivity.
Qed.

Lemma submit_orders_guards_witness :
  submit_orders (fun _ => "2"%string) (fun x => x) client_accepts
    (TradePlan_sample "none") true
  = ([], Some (KeyError "none"))
  /\ exists first rest outcome,
       submit_orders (fun _ => "2"%string) (fun x => x) client_rejects
         (TradePlan_sample "short") true = (first :: rest, outcome)
       /\ is_stop_order first = false.
Proof.
  split.
  - apply (proj1 (proj2 (submit_orders_guards (fun _ => "2"%string) (fun x => x)
                           client_accepts (TradePlan_sample "none"))));
      discriminate.
  - apply (proj2 (proj2 (submit_orders_guards (fun _ => "2"%string) (fun x => x)
                           client_rejects (TradePlan_sample "short")))).
    right. reflexivity.
Defined.

(** The orders of a live run, for a long or a short plan.  The calls
    are the entry market order (buy for a long, sell for a short), then
    the stop-loss stop order, then the take-profit stop order; both stop
    orders are reduce-only, on the opposite side, for the size of the
    entry, at the rounded stop-loss and take-profit prices, and both
    carry the same trigger direction (down for a long, up for a short).
    The run stops at the first call the client rejects, and at no other
    place: a rejected entry order leaves that one call and its
    exception; an accepted entry and a rejected stop-loss order leave
    those two calls and the exception, and the take-profit order is not
    sent; a rejected take-profit order leaves all three calls and its
    exception; when all three are accepted all three are made and the
    function ends normally. *)
Theorem submit_orders_sequence (str_int : Z -> string) (round2 : Q -> Q)
    (client : list client_call -> client_call -> option order_exn)
    (plan : TradePlan) :
  side plan = "long"%string \/ side plan = "short"%string ->
  let long := is_long (side plan) in
  let entry :=
    create_market_order
      {| mo_symbol := SYMBOL;
         mo_side := if long then "buy"%string else "sell"%string;
         mo_leverage := str_int LEVERAGE;
         mo_size := str_int (size plan) |} in
  let stop_at (price : Q) :=
    create_stop_order
      {| so_symbol := SYMBOL;
         so_side := if long then "sell"%string else "buy"%string;
         so_leverage := str_int LEVERAGE;
         so_stop := if long then "down"%string else "up"%string;
         so_stopPrice := round2 price;
         so_size := str_int (size plan);
         so_reduceOnly := true |} in
  let stop_loss := stop_at (stop_loss_price plan) in
  let take_profit := stop_at (take_profit_price plan) in
  let run := submit_orders str_int round2 client plan true in
  (forall e, client [] entry = Some e -> run = ([entry], Some e))
  /\ (forall e,
         client [] entry = None ->
         client [entry] stop_loss = Some e ->
         run = ([entry; stop_loss], Some e))
  /\ (forall e,
         client [] entry = None ->
         client [entry] stop_loss = None ->
         client [entry; stop_loss] take_profit = Some e ->
         run = ([entry; stop_loss; take_profit], Some e))
  /\ (client [] entry = None ->
      client [entry] stop_loss = None ->
      client [entry; stop_loss] take_profit = None ->
      run = ([entry; stop_loss; take_profit], None)).
Proof.
  intros Hside. cbv zeta.
  unfold submit_orders, side_map_get, call_client. cbn [negb app].
  destruct Hside as [Hs | Hs]; rewrite Hs;
    cbn [String.eqb Ascii.eqb Bool.eqb is_long];
    (split; [intros e H1; now rewrite H1 |]);
    (split; [intros e H1 H2; now rewrite H1, H2 |]);
    (split; [intros e H1 H2 H3; now rewrite H1, H2, H3 |]);
    intros H1 H2 H3; now rewrite H1, H2, H3.
Qed.

Lemma submit_orders_sequence_witness :
  (exists made,
      submit_orders (fun _ => "2"%string) (fun x => x) client_accepts
        (TradePlan_sample "long") true = (made, None)
      /\ List.length made = 3%nat)
  /\ (exists first,
         submit_orders (fun _ => "2"%string) (fun x => x) client_rejects
           (TradePlan_sample "short") true = ([first], Some (ClientError 400))
         /\ is_stop_order first = false).
Proof.
  split.
  - eexists. split.
    + apply (proj2 (proj2 (proj2
               (submit_orders_sequence (fun _ => "2"%string) (fun x => x)
                  client_accepts (TradePlan_sample "long") (or_introl eq_refl)))));
        reflexivity.
    + reflexivity.
  - eexists. split.
    + apply (proj1 (submit_orders_sequence (fun _ => "2"%string) (fun x => x)
                      client_rejects (TradePlan_sample "short")
                      (or_intror eq_refl))).
      reflexivity.
    + reflexivity.
Defined.
